(** * Piper0 refractive-index importers

    A shallow embedding of the two conversion scripts

    - [src/data/RefractiveIndextoPiper0.py] (CSV exports), and
    - [src/data/mitsuba2toPiper0.py] (Mitsuba2 [.spd] tables),

    followed by the properties of their parsing, range trimming and JSON
    emission.

    Python [float] is IEEE binary64 and is modelled by Rocq's primitive
    [float]; Python [str] is modelled by [string], one [ascii] per code
    point (code points below 256). *)

From Stdlib Require Import ZArith List String Ascii Bool Lia Floats.
From Equations Require Import Equations.
Import ListNotations.

Set Warnings "-inexact-float,-register-all".

Local Open Scope string_scope.
Local Open Scope Z_scope.

(* ===================================================================== *)
(** * Python runtime: exceptions, [str] methods, [float] *)
(* ===================================================================== *)

Module Py.

(** The exceptions that the two scripts can raise. *)
Inductive exn : Type :=
| ValueError   (* float() of a malformed field, unpacking a wrong count *)
| TypeError    (* [raise "Invalid data"]: a str is not an exception    *)
| OSError.     (* a file that cannot be opened                         *)

Inductive result (A : Type) : Type :=
| Ok (a : A)
| Raise (e : exn).
Arguments Ok {A} a.
Arguments Raise {A} e.

Definition bind {A B} (m : result A) (k : A -> result B) : result B :=
  match m with
  | Ok a => k a
  | Raise e => Raise e
  end.

(** [list(map(f, xs))] for an [f] that may raise: stops at the first
    exception. *)
Fixpoint map_result {A B} (f : A -> result B) (xs : list A)
  : result (list B) :=
  match xs with
  | [] => Ok []
  | x :: xs' =>
      bind (f x) (fun y => bind (map_result f xs') (fun ys => Ok (y :: ys)))
  end.

(** ** [str] *)

Definition len (s : string) : Z := Z.of_nat (String.length s).

Fixpoint startswith (s pat : string) : bool :=
  match pat, s with
  | EmptyString, _ => true
  | String p pat', String c s' => Ascii.eqb p c && startswith s' pat'
  | String _ _, EmptyString => false
  end.

(** [s.find(sub)]: the lowest index at which [sub] occurs, [-1] if none. *)
Fixpoint find_from (i : Z) (s sub : string) : Z :=
  if startswith s sub then i
  else match s with
       | EmptyString => -1
       | String _ s' => find_from (i + 1) s' sub
       end.

Definition find (s sub : string) : Z := find_from 0 s sub.

Fixpoint drop (n : nat) (s : string) : string :=
  match n, s with
  | O, _ => s
  | S _, EmptyString => EmptyString
  | S n', String _ s' => drop n' s'
  end.

Fixpoint take (n : nat) (s : string) : string :=
  match n, s with
  | O, _ => EmptyString
  | S _, EmptyString => EmptyString
  | S n', String c s' => String c (take n' s')
  end.

(** Slice bounds: a negative index counts from the end, and both ends are
    clamped to [0, len]. *)
Definition clamp_index (n i : Z) : Z :=
  if i <? 0 then Z.max 0 (i + n) else Z.min i n.

(** [s[start:stop]] *)
Definition slice (s : string) (start stop : Z) : string :=
  let lo := clamp_index (len s) start in
  let hi := clamp_index (len s) stop in
  take (Z.to_nat (hi - lo)) (drop (Z.to_nat lo) s).

(** [s[start:]] *)
Definition slice_from (s : string) (start : Z) : string :=
  drop (Z.to_nat (clamp_index (len s) start)) s.

Definition endswith (s suffix : string) : bool :=
  let n := String.length s in
  let m := String.length suffix in
  (m <=? n)%nat && String.eqb (drop (n - m) s) suffix.

Definition removesuffix (s suffix : string) : string :=
  if endswith s suffix then take (String.length s - String.length suffix) s
  else s.

(** [s.replace(old, new)] for a non-empty [old]: every non-overlapping
    occurrence, left to right.  [skip] counts the characters of a match
    that are still to be dropped. *)
Fixpoint replace_from (skip : nat) (s old new : string) : string :=
  match s with
  | EmptyString => EmptyString
  | String c s' =>
      match skip with
      | S k => replace_from k s' old new
      | O => if startswith s old
             then new ++ replace_from (String.length old - 1) s' old new
             else String c (replace_from O s' old new)
      end
  end.

Definition replace (s old new : string) : string := replace_from 0 s old new.

Definition code (c : ascii) : Z := Z.of_N (N_of_ascii c).

(** Line boundaries of [str.splitlines] among the code points below 256:
    LF, VT, FF, CR, FS, GS, RS and NEL. *)
Definition is_linebreak (c : ascii) : bool :=
  let n := code c in
  ((10 <=? n) && (n <=? 13)) || ((28 <=? n) && (n <=? 30)) || (n =? 133).

Definition is_cr (c : ascii) : bool := code c =? 13.
Definition is_lf (c : ascii) : bool := code c =? 10.

(** [s.splitlines()].  [cur] is the line read so far, reversed.  A CR
    directly followed by LF is one boundary; text after the last boundary
    is a line only if it is not empty. *)
Fixpoint splitlines_from (cur : list ascii) (s : string) : list string :=
  match s with
  | EmptyString =>
      match cur with
      | [] => []
      | _ => [string_of_list_ascii (rev cur)]
      end
  | String c s' =>
      if is_linebreak c then
        string_of_list_ascii (rev cur) ::
          match s' with
          | String d s'' =>
              if is_cr c && is_lf d then splitlines_from [] s''
              else splitlines_from [] s'
          | EmptyString => []
          end
      else splitlines_from (c :: cur) s'
  end.

Definition splitlines (s : string) : list string := splitlines_from [] s.

(** [s.split(sep)] for a one-character separator: never empty, and
    [n] separators give [n + 1] fields. *)
Fixpoint split_from (cur : list ascii) (sep : ascii) (s : string)
  : list string :=
  match s with
  | EmptyString => [string_of_list_ascii (rev cur)]
  | String c s' =>
      if Ascii.eqb c sep
      then string_of_list_ascii (rev cur) :: split_from [] sep s'
      else split_from (c :: cur) sep s'
  end.

Definition split (s : string) (sep : ascii) : list string :=
  split_from [] sep s.

(** Whitespace of [str.split()] among the code points below 256. *)
Definition is_space (c : ascii) : bool :=
  let n := code c in
  ((9 <=? n) && (n <=? 13)) || ((28 <=? n) && (n <=? 32))
  || (n =? 133) || (n =? 160).

(** [s.split()]: fields separated by runs of whitespace, no empty field. *)
Fixpoint split_ws_from (cur : list ascii) (s : string) : list string :=
  match s with
  | EmptyString =>
      match cur with
      | [] => []
      | _ => [string_of_list_ascii (rev cur)]
      end
  | String c s' =>
      if is_space c then
        match cur with
        | [] => split_ws_from [] s'
        | _ => string_of_list_ascii (rev cur) :: split_ws_from [] s'
        end
      else split_ws_from (c :: cur) s'
  end.

Definition split_ws (s : string) : list string := split_ws_from [] s.

Definition lower_char (c : ascii) : ascii :=
  let n := code c in
  if (65 <=? n) && (n <=? 90) then ascii_of_N (Z.to_N (n + 32)) else c.

Fixpoint lower (s : string) : string :=
  match s with
  | EmptyString => EmptyString
  | String c s' => String (lower_char c) (lower s')
  end.

(** ** [float(str)] *)

(** The whitespace [float] ignores around a number, among the code points
    below 256: tab, LF, VT, FF, CR and space, and the two spaces beyond
    ASCII, NEL and NBSP.  The separators FS, GS, RS and US are whitespace
    for [str.split()] but not here. *)
Definition is_float_space (c : ascii) : bool :=
  let n := code c in
  ((9 <=? n) && (n <=? 13)) || (n =? 32) || (n =? 133) || (n =? 160).

Fixpoint float_lstrip (s : string) : string :=
  match s with
  | String c s' => if is_float_space c then float_lstrip s' else s
  | EmptyString => EmptyString
  end.

(** A character is dropped at the end when it is whitespace and nothing
    but whitespace follows it. *)
Fixpoint float_rstrip (s : string) : string :=
  match s with
  | EmptyString => EmptyString
  | String c s' =>
      match float_rstrip s' with
      | EmptyString =>
          if is_float_space c then EmptyString else String c EmptyString
      | kept => String c kept
      end
  end.

Definition float_strip (s : string) : string :=
  float_rstrip (float_lstrip s).

Definition is_digit (c : ascii) : bool :=
  let n := code c in (48 <=? n) && (n <=? 57).

Definition digit_value (c : ascii) : Z := code c - 48.

(** The rest of a [digitpart] after its first digit: [(["_"] digit)*]
    when [underscores] are allowed between digits, [digit*] otherwise.
    Returns the digits read and the unread text. *)
Fixpoint digits_rest (underscores : bool) (s : string) : list Z * string :=
  match s with
  | String c s' =>
      if is_digit c then
        let (ds, r) := digits_rest underscores s' in (digit_value c :: ds, r)
      else if underscores && Ascii.eqb c "_" then
        match s' with
        | String d s'' =>
            if is_digit d then
              let (ds, r) := digits_rest underscores s'' in
              (digit_value d :: ds, r)
            else ([], s)
        | EmptyString => ([], s)
        end
      else ([], s)
  | EmptyString => ([], s)
  end.

(** [digitpart ::= digit (["_"] digit)*]; no digit read when the text does
    not start with one. *)
Definition digitpart (underscores : bool) (s : string) : list Z * string :=
  match s with
  | String c s' =>
      if is_digit c then
        let (ds, r) := digits_rest underscores s' in (digit_value c :: ds, r)
      else ([], s)
  | EmptyString => ([], s)
  end.

Definition decimal_value (ds : list Z) : Z :=
  fold_left (fun acc d => 10 * acc + d) ds 0.

(** An optional sign: [true] for ["-"]. *)
Definition sign_of (s : string) : bool * string :=
  match s with
  | String c s' =>
      if Ascii.eqb c "-" then (true, s')
      else if Ascii.eqb c "+" then (false, s')
      else (false, s)
  | EmptyString => (false, s)
  end.

(** [exponent ::= ("e" | "E") [sign] digitpart], read at the end of the
    text; no exponent is the exponent 0. *)
Definition exponent_of (underscores : bool) (s : string) : option Z :=
  match s with
  | EmptyString => Some 0
  | String c s' =>
      if Ascii.eqb (lower_char c) "e" then
        let (neg, r) := sign_of s' in
        match digitpart underscores r with
        | ((_ :: _) as ds, EmptyString) =>
            Some (if neg then - decimal_value ds else decimal_value ds)
        | _ => None
        end
      else None
  end.

(** The binary64 nearest to [(-1)^neg * m * 10^e10], ties to even. *)
Definition float_of_decimal (neg : bool) (m e10 : Z) : float :=
  match m with
  | Zpos p =>
      let num := if 0 <=? e10 then Pos.mul p (Z.to_pos (10 ^ e10)) else p in
      let den := if 0 <=? e10 then 1%positive else Z.to_pos (10 ^ (- e10)) in
      SF2Prim (SFdiv prec emax (S754_finite neg num 0)
                                (S754_finite false den 0))
  | _ => if neg then neg_zero else zero
  end.

(** [floatnumber ::= number [exponent]] with
    [number ::= [digitpart] "." digitpart | digitpart ["."]]. *)
Definition floatnumber (underscores neg : bool) (s : string) : option float :=
  let (ip, r1) := digitpart underscores s in
  let '(fp, r2, ok) :=
    match r1 with
    | String c r =>
        if Ascii.eqb c "." then
          let (fp, r2) := digitpart underscores r in
          (fp, r2, match ip, fp with [], [] => false | _, _ => true end)
        else ([], r1, match ip with [] => false | _ => true end)
    | EmptyString => ([], r1, match ip with [] => false | _ => true end)
    end in
  if ok then
    match exponent_of underscores r2 with
    | Some e =>
        Some (float_of_decimal neg (decimal_value (ip ++ fp))
                (e - Z.of_nat (List.length fp)))
    | None => None
    end
  else None.

(** A text without surrounding whitespace as a number: an optional sign
    and one of [inf], [infinity], [nan] (in any case) or a [floatnumber].
    This is the conversion of C's [PyOS_string_to_double]; underscores
    are a refinement of [float] alone. *)
Definition float_of_ascii (underscores : bool) (s : string) : result float :=
  let (neg, body) := sign_of s in
  let word := lower body in
  if String.eqb word "inf" || String.eqb word "infinity"
  then Ok (if neg then neg_infinity else infinity)
  else if String.eqb word "nan" then Ok nan
  else match floatnumber underscores neg body with
       | Some x => Ok x
       | None => Raise ValueError
       end.

(** [float(s)]: surrounding whitespace is ignored, and single underscores
    may stand between digits. *)
Definition float_of_str (s : string) : result float :=
  float_of_ascii true (float_strip s).

End Py.

Notation "x <- m ;; k" := (Py.bind m (fun x => k))
  (at level 61, m at next level, right associativity).

(* ===================================================================== *)
(** * JSON values, as [json.dump] receives them *)
(* ===================================================================== *)

Module Json.

(** Members of an object are kept in insertion order, as in a [dict]. *)
Inductive json : Type :=
| JNumber (x : float)
| JString (s : string)
| JArray (items : list json)
| JObject (members : list (string * json)).

Definition has_key (key : string) (obj : json) : bool :=
  match obj with
  | JObject members => existsb (fun kv => String.eqb (fst kv) key) members
  | _ => false
  end.

Fixpoint lookup (key : string) (members : list (string * json))
  : option json :=
  match members with
  | [] => None
  | (k, v) :: rest => if String.eqb k key then Some v else lookup key rest
  end.

Definition get (key : string) (obj : json) : option json :=
  match obj with
  | JObject members => lookup key members
  | _ => None
  end.

(** The value both scripts store under ["Eta"] and ["K"]. *)
Definition texture (array : json) : json :=
  JObject [("Type", JString "SampledSpectrumTexture"); ("Array", array)].

End Json.

(* ===================================================================== *)
(** * What a run can observe and do *)
(* ===================================================================== *)

Module Sys.

(** The file system as the scripts read it: [walk path] is the sequence
    of [(root, dirs, files)] that [os.walk(path)] yields, and [read_text]
    the decoded text of a file, [None] when it cannot be opened.  The
    directory [ior] is taken to exist, as both scripts assume. *)
Record world : Type := {
  walk : string -> list (string * list string * list string);
  read_text : string -> option string
}.

Inductive event : Type :=
| Printed (text : string)                 (* one [print] call              *)
| Read (path : string)                    (* an [open] for reading         *)
| Dump (path : string) (obj : Json.json). (* an [open] for writing and the
                                             [json.dump] into it           *)

(** How a run ends: past the last statement, by [exit(status)], or by an
    exception that nothing catches. *)
Inductive outcome : Type :=
| Finished
| Exited (status : Z)
| Uncaught (e : Py.exn).

Definition touches_file (e : event) : bool :=
  match e with
  | Printed _ => false
  | Read _ | Dump _ _ => true
  end.

End Sys.

(* ===================================================================== *)
(** * [src/data/RefractiveIndextoPiper0.py] *)
(* ===================================================================== *)

Module RefractiveIndex.
Import Py Json Sys.

(** One element [[k*1e3, v]] of [res]: wavelength in nanometres, value. *)
Definition sample : Type := (float * float)%type.
Definition wavelength (r : sample) : float := fst r.
Definition value (r : sample) : float := snd r.

(** Body of the [for] loop of [parse] for a non-empty line. *)
Definition parse_line (line : string) : result sample :=
  fields <- map_result float_of_str (split line ",") ;;
  match fields with
  | [k; v] => Ok ((k * 1e3)%float, v)
  | _ => Raise ValueError
  end.

(** The [for] loop of [parse], [res] being the list built so far. *)
Fixpoint parse_lines (res : list sample) (lines : list string)
  : result (list sample) :=
  match lines with
  | [] => Ok res
  | line :: rest =>
      if len line =? 0 then parse_lines res rest
      else r <- parse_line line ;; parse_lines (res ++ [r]) rest
  end.

Definition parse_rows (lines : string) : result (list sample) :=
  parse_lines [] (splitlines lines).

(** [res[i]] for a list: a negative index counts from the end. *)
Definition item (res : list sample) (i : Z) : option sample :=
  let n := Z.of_nat (List.length res) in
  let j := if i <? 0 then i + n else i in
  if (0 <=? j) && (j <? n) then nth_error res (Z.to_nat j) else None.

(** [len(res) >= 2 and res[1][0] < 360]; the index is in range whenever
    the first conjunct holds. *)
Definition front_guard (res : list sample) : bool :=
  (2 <=? Z.of_nat (List.length res)) &&
  match item res 1 with
  | Some r => (wavelength r <? 360)%float
  | None => false
  end.

(** [len(res) >= 2 and res[-2][0] > 830] *)
Definition back_guard (res : list sample) : bool :=
  (2 <=? Z.of_nat (List.length res)) &&
  match item res (-2) with
  | Some r => (830 <? wavelength r)%float
  | None => false
  end.

(** [res.pop(0)] and [res.pop(-1)] on a non-empty list. *)
Definition pop_first (res : list sample) : list sample := tl res.
Definition pop_last (res : list sample) : list sample := removelast res.

(** A loop guard together with the fact that it evaluated so. *)
Definition inspect {A : Type} (x : A) : {y : A | x = y} :=
  exist _ x eq_refl.

(** First [while] loop of [parse]. *)
Equations? trim_front (res : list sample) : list sample
  by wf (List.length res) lt :=
  trim_front res with inspect (front_guard res) := {
    | exist _ true G => trim_front (pop_first res);
    | exist _ false G => res }.
Proof.
  unfold front_guard in G. apply andb_prop in G as [G _].
  destruct res; simpl in *; lia.
Qed.

(** Second [while] loop of [parse]. *)
Equations? trim_back (res : list sample) : list sample
  by wf (List.length res) lt :=
  trim_back res with inspect (back_guard res) := {
    | exist _ true G => trim_back (pop_last res);
    | exist _ false G => res }.
Proof.
  unfold back_guard in G. apply andb_prop in G as [G _].
  assert (L : forall l : list sample,
             List.length (removelast l) = pred (List.length l)).
  { induction l as [|a [|b l] IH]; simpl in *; auto. }
  unfold pop_last. rewrite L. lia.
Qed.

(** The two loops in sequence: the range normalizer. *)
Definition normalize (res : list sample) : list sample :=
  trim_back (trim_front res).

(** [parse(lines)].  The array returned is two-dimensional, one row
    [[wavelength, value]] per element of [res]; it is kept as the list of
    its rows. *)
Definition parse (lines : string) : result (list sample) :=
  rows <- parse_rows lines ;;
  let res := normalize rows in
  if Z.of_nat (List.length res) =? 0 then Raise TypeError
  else Ok res.

(** [arr.tolist()] of such an array. *)
Definition tolist (arr : list sample) : json :=
  JArray (map (fun r => JArray [JNumber (wavelength r); JNumber (value r)])
              arr).

(** Lines 69-75: the sections handed to [parse]. *)
Definition eta_section (data : string) : string :=
  if negb (find data "wl,k" =? -1)
  then slice data (find data "wl,n" + 4) (find data "wl,k")
  else slice_from data (find data "wl,n" + 4).

Definition k_section (data : string) : option string :=
  if negb (find data "wl,k" =? -1)
  then Some (slice_from data (find data "wl,k" + 4))
  else None.

Definition load (data : string)
  : result (list sample * option (list sample)) :=
  if negb (find data "wl,k" =? -1) then
    eta <- parse (slice data (find data "wl,n" + 4) (find data "wl,k")) ;;
    k <- parse (slice_from data (find data "wl,k" + 4)) ;;
    Ok (eta, Some k)
  else
    eta <- parse (slice_from data (find data "wl,n" + 4)) ;;
    Ok (eta, None).

(** [np.all(np.transpose(k)[1] < 1e-3)] *)
Definition negligible (k : list sample) : bool :=
  forallb (fun r => (value r <? 1e-3)%float) k.

(** Lines 77-78. *)
Definition drop_negligible (k : option (list sample))
  : option (list sample) :=
  match k with
  | Some t => if negligible t then None else Some t
  | None => None
  end.

(** Lines 81-92: the object handed to [json.dump]. *)
Definition build (eta : list sample) (k : option (list sample)) : json :=
  JObject
    (("Eta", texture (tolist eta)) ::
     match k with
     | Some t =>
         if 0 <? Z.of_nat (List.length t)
         then [("K", texture (tolist t))]
         else []
     | None => []
     end).

(** Lines 69-92 for the text of one file. *)
Definition convert (data : string) : result json :=
  tables <- load data ;;
  Ok (build (fst tables) (drop_negligible (snd tables))).

(** Lines 56-60. *)
Definition materials (w : world) (path : string) : list (string * string) :=
  flat_map
    (fun entry =>
       let '(r, _, fs) := entry in
       flat_map
         (fun f =>
            if endswith f ".csv"
            then [(removesuffix f ".csv", r ++ "/" ++ f)]
            else [])
         fs)
    (walk w path).

(** Lines 62-94: the loop over the materials found. *)
Fixpoint generate (w : world) (ms : list (string * string))
  : list event * outcome :=
  match ms with
  | [] => ([], Finished)
  | (name, eta) :: rest =>
      let started := [Printed ("Generating " ++ name); Read eta] in
      match read_text w eta with
      | None => (started, Uncaught OSError)
      | Some data =>
          match convert data with
          | Raise e => (started, Uncaught e)
          | Ok obj =>
              let (later, out) := generate w rest in
              ((started ++ Dump ("ior/" ++ name ++ ".json") obj :: later)%list,
               out)
          end
      end
  end.

Definition usage : string := "Please input the path to data files".

(** The script, run with [sys.argv = argv]. *)
Definition main (argv : list string) (w : world) : list event * outcome :=
  if negb (Z.of_nat (List.length argv) =? 2)
  then ([Printed usage], Exited (-1))
  else generate w (materials w (nth 1 argv "")).

End RefractiveIndex.

(* ===================================================================== *)
(** * [src/data/mitsuba2toPiper0.py] *)
(* ===================================================================== *)

Module Mitsuba2.
Import Py Json Sys.

(** A float array of at most two dimensions. *)
Inductive ndarray : Type :=
| Array0 (x : float)                  (* shape ()      *)
| Array1 (xs : list float)            (* shape (n,)    *)
| Array2 (rows : list (list float)).  (* shape (n, m)  *)

(** [arr.tolist()]: nesting as deep as the array has dimensions. *)
Definition tolist (arr : ndarray) : json :=
  match arr with
  | Array0 x => JNumber x
  | Array1 xs => JArray (map JNumber xs)
  | Array2 rows => JArray (map (fun row => JArray (map JNumber row)) rows)
  end.

Definition LF : ascii := ascii_of_nat 10.

(** The text of a line before its first ["#"]. *)
Fixpoint strip_comment (line : string) : string :=
  match line with
  | EmptyString => EmptyString
  | String c rest =>
      if Ascii.eqb c "#" then EmptyString else String c (strip_comment rest)
  end.

(** The rows [numpy.loadtxt] reads with its default arguments: comments
    removed, lines without a field skipped, fields separated by runs of
    whitespace and converted by its C reader, which takes the numbers
    [float] takes except for underscores between digits. *)
Definition loadtxt_rows (text : string) : result (list (list float)) :=
  map_result (map_result (float_of_ascii false))
    (filter (fun fields => negb (Nat.eqb (List.length fields) 0))
       (map (fun line => split_ws (strip_comment line)) (split text LF))).

Definition same_width (rows : list (list float)) : bool :=
  match rows with
  | [] => true
  | first :: rest =>
      forallb (fun row => Nat.eqb (List.length row) (List.length first)) rest
  end.

(** With [ndmin=0], the default, [loadtxt] squeezes every axis of
    length one out of the [(rows, columns)] array it has read. *)
Definition squeeze (rows : list (list float)) : ndarray :=
  match rows with
  | [] => Array1 []
  | [[x]] => Array0 x
  | [row] => Array1 row
  | _ =>
      if forallb (fun row => Nat.eqb (List.length row) 1) rows
      then Array1 (flat_map (fun row => row) rows)
      else Array2 rows
  end.

(** [np.loadtxt(fname)] on the text of the file. *)
Definition loadtxt (text : string) : result ndarray :=
  rows <- loadtxt_rows text ;;
  if same_width rows then Ok (squeeze rows) else Raise ValueError.

(** Lines 48-57: the object handed to [json.dump]. *)
Definition build (eta k : ndarray) : json :=
  JObject [("Eta", texture (tolist eta)); ("K", texture (tolist k))].

(** Lines 44-57 for the texts of the two files of a material. *)
Definition convert (eta_text k_text : string) : result json :=
  eta <- loadtxt eta_text ;;
  k <- loadtxt k_text ;;
  Ok (build eta k).

(** Lines 34-39. *)
Definition materials (w : world) (path : string)
  : list (string * string * string) :=
  flat_map
    (fun entry =>
       let '(r, _, fs) := entry in
       flat_map
         (fun f =>
            if endswith f ".eta.spd"
            then [(removesuffix f ".eta.spd",
                   r ++ "/" ++ f,
                   r ++ "/" ++ replace f ".eta.spd" ".k.spd")]
            else [])
         fs)
    (walk w path).

(** Lines 41-59: the loop over the materials found. *)
Fixpoint generate (w : world) (ms : list (string * string * string))
  : list event * outcome :=
  match ms with
  | [] => ([], Finished)
  | (name, eta, k) :: rest =>
      let started := [Printed ("Generating " ++ name); Read eta] in
      match read_text w eta with
      | None => (started, Uncaught OSError)
      | Some eta_text =>
          match loadtxt eta_text with
          | Raise e => (started, Uncaught e)
          | Ok eta_arr =>
              match read_text w k with
              | None => ((started ++ [Read k])%list, Uncaught OSError)
              | Some k_text =>
                  match loadtxt k_text with
                  | Raise e => ((started ++ [Read k])%list, Uncaught e)
                  | Ok k_arr =>
                      let (later, out) := generate w rest in
                      ((started ++ Read k ::
                          Dump ("ior/" ++ name ++ ".json") (build eta_arr k_arr)
                          :: later)%list,
                       out)
                  end
              end
          end
      end
  end.

Definition usage : string :=
  "Please input the root path to mitsuba2's source".

(** The script, run with [sys.argv = argv]. *)
Definition main (argv : list string) (w : world) : list event * outcome :=
  if negb (Z.of_nat (List.length argv) =? 2)
  then ([Printed usage], Exited (-1))
  else generate w (materials w (nth 1 argv "" ++ "/resources/data/ior")).

End Mitsuba2.

(* ===================================================================== *)
(** * The notions of the specification *)
(* ===================================================================== *)

Module Spec.
Import RefractiveIndex.

(** A Spectral Table.  The Range Normalizer comes first, worded as its
    contract is; the definitions that follow name what the other
    properties speak of. *)
Definition table : Type := list sample.

(** "the table has >= 2 samples AND the second sample's wavelength is
    still below 360 nm" *)
Definition second_below_360 (t : table) : bool :=
  match t with
  | _ :: second :: _ => (wavelength second <? 360)%float
  | _ => false
  end.

(** "the table has >= 2 samples AND the second-to-last sample's
    wavelength is still above 830 nm" *)
Definition second_to_last_above_830 (t : table) : bool :=
  match rev t with
  | _ :: second_to_last :: _ => (830 <? wavelength second_to_last)%float
  | _ => false
  end.

Definition discard_first (t : table) : table :=
  match t with
  | [] => []
  | _ :: rest => rest
  end.

Definition discard_last (t : table) : table := rev (discard_first (rev t)).

(** "repeatedly [discard] while [condition]": [repeatedly c d t t'] when
    [t'] is what is left of [t] once the condition fails. *)
Inductive repeatedly (condition : table -> bool) (discard : table -> table)
  : table -> table -> Prop :=
| repeat_stop t :
    condition t = false -> repeatedly condition discard t t
| repeat_again t t' :
    condition t = true ->
    repeatedly condition discard (discard t) t' ->
    repeatedly condition discard t t'.

(** The contract of the Range Normalizer. *)
Definition normalizes (t out : table) : Prop :=
  exists trimmed,
    repeatedly second_below_360 discard_first t trimmed /\
    repeatedly second_to_last_above_830 discard_last trimmed out.

(** A wavelength within the band [360, 830] nm. *)
Definition in_band (r : sample) : Prop :=
  (360 <=? wavelength r)%float = true /\
  (wavelength r <=? 830)%float = true.

(** Every sample but the first and the last is in the band. *)
Definition interior_in_band (t : table) : Prop :=
  forall i r,
    (0 < i)%nat -> (S i < List.length t)%nat ->
    nth_error t i = Some r -> in_band r.

Definition wavelength_le (a b : sample) : Prop :=
  (wavelength a <=? wavelength b)%float = true.

(** Rows sorted by ascending wavelength: each one is at most the next. *)
Inductive ascending : table -> Prop :=
| ascending_nil : ascending []
| ascending_one r : ascending [r]
| ascending_cons a b t :
    wavelength_le a b -> ascending (b :: t) -> ascending (a :: b :: t).

(** "below 1e-3 in magnitude" *)
Definition all_below_in_magnitude (k : table) : bool :=
  forallb (fun r => (abs (value r) <? 1e-3)%float) k.

(** [sub] occurs in [s] at offset [i]. *)
Definition occurs_at (s sub : string) (i : nat) : Prop :=
  (i <= String.length s)%nat /\ Py.startswith (Py.drop i s) sub = true.

Definition first_at (s sub : string) (i : nat) : Prop :=
  occurs_at s sub i /\ forall j, (j < i)%nat -> ~ occurs_at s sub j.

Definition absent (s sub : string) : Prop :=
  forall i, ~ occurs_at s sub i.

(** The text of [s] from offset [a] up to, not including, offset [b]. *)
Definition between (s : string) (a b : nat) : string :=
  Py.take (b - a) (Py.drop a s).

Definition blank (s : string) : Prop :=
  Forall (fun line => line = EmptyString) (Py.splitlines s).

(** *** The text of a number, after the grammar of [float] *)

Definition decimal_digit (c : ascii) : Prop :=
  In c (list_ascii_of_string "0123456789").

(** The whitespace that may surround a number: tab, LF, VT, FF, CR,
    space, NEL and NBSP. *)
Definition float_blank (c : ascii) : Prop :=
  In (Py.code c) [9; 10; 11; 12; 13; 32; 133; 160]%Z.

Definition blanks (s : string) : Prop :=
  Forall float_blank (list_ascii_of_string s).

(** [digitpart ::= digit (["_"] digit)*] *)
Inductive digit_text : string -> Prop :=
| digit_last d :
    decimal_digit d -> digit_text (String d EmptyString)
| digit_next d rest :
    decimal_digit d -> digit_text rest -> digit_text (String d rest)
| digit_underscore d rest :
    decimal_digit d -> digit_text rest ->
    digit_text (String d (String "_" rest)).

Definition optional_sign (s : string) : Prop :=
  s = EmptyString \/ s = "+"%string \/ s = "-"%string.

(** [number ::= [digitpart] "." digitpart | digitpart ["."]] *)
Definition number_text (s : string) : Prop :=
  (exists ip fp,
      s = (ip ++ "." ++ fp)%string /\
      (ip = EmptyString \/ digit_text ip) /\ digit_text fp) \/
  (exists ip,
      digit_text ip /\ (s = ip \/ s = (ip ++ ".")%string)).

(** [exponent ::= ("e" | "E") [sign] digitpart] *)
Definition exponent_text (s : string) : Prop :=
  exists e sign digits,
    s = (e ++ sign ++ digits)%string /\
    (e = "e"%string \/ e = "E"%string) /\
    optional_sign sign /\ digit_text digits.

(** [floatnumber ::= number [exponent]] *)
Definition floatnumber_text (s : string) : Prop :=
  exists n e,
    s = (n ++ e)%string /\ number_text n /\
    (e = EmptyString \/ exponent_text e).

(** [inf], [infinity] or [nan], in any case. *)
Definition infinity_or_nan (s : string) : Prop :=
  In (Py.lower s) ["inf"%string; "infinity"%string; "nan"%string].

(** [floatvalue ::= [sign] (floatnumber | infinity | nan)] *)
Definition floatvalue_text (s : string) : Prop :=
  exists sign body,
    s = (sign ++ body)%string /\ optional_sign sign /\
    (floatnumber_text body \/ infinity_or_nan body).

(** A text [float] accepts: a [floatvalue] between whitespace. *)
Definition float_text (s : string) : Prop :=
  exists before body after,
    s = (before ++ body ++ after)%string /\
    blanks before /\ blanks after /\ floatvalue_text body.

(** A line that is two numbers with one comma between them. *)
Definition two_floats (line : string) : Prop :=
  exists k v,
    line = (k ++ "," ++ v)%string /\ float_text k /\ float_text v.

(** A non-empty line that is not two comma-separated floats. *)
Definition malformed (line : string) : Prop :=
  line <> EmptyString /\ ~ two_floats line.

End Spec.

(* ===================================================================== *)
(** * Sample inputs *)
(* ===================================================================== *)

Module Examples.
Import Json Sys.

Definition NL : string := String (ascii_of_nat 10) EmptyString.

(** A text made of the given lines, each ended by a line feed. *)
Definition text (lines : list string) : string :=
  String.concat "" (map (fun line => line ++ NL) lines).

(** Three rows spanning exactly the band, in micrometres. *)
Definition band_rows : string :=
  text ["0.360,1.5"; "0.5,1.6"; "0.83,1.7"].

(** A file without extinction data. *)
Definition eta_only : string :=
  text ["wl,n"; "0.3,1.5"; "0.4,1.6"; "0.9,1.4"].

(** A file whose rows reach well outside the band on both sides. *)
Definition wide : string :=
  text ["wl,n"; "0.2,1.3"; "0.3,1.4"; "0.35,1.5"; "0.5,1.6"; "0.7,1.7";
        "0.85,1.8"; "0.9,1.9"; "1.0,2.0";
        "wl,k"; "0.3,0.5"; "0.35,0.6"; "0.5,0.7"; "0.9,0.8"; "1.1,0.9"].

(** Extinction values that are negative and far from zero. *)
Definition negative_k : string :=
  text ["wl,n"; "0.4,1.5"; "0.5,1.6"; "wl,k"; "0.4,-5.0"; "0.5,-5.0"].

(** Extinction values that are all tiny. *)
Definition tiny_k : string :=
  text ["wl,n"; "0.4,1.5"; "0.5,1.6"; "wl,k"; "0.4,0.0005"; "0.5,-0.0002"].

(** A row with the wrong separator. *)
Definition semicolon_row : string := "0.5;1.6".

(** A file system holding nothing. *)
Definition empty_world : world :=
  {| walk := fun _ => []; read_text := fun _ => None |}.

(** A Mitsuba2 tree with one material, one row per file. *)
Definition copper_world : world :=
  {| walk := fun path =>
       if String.eqb path "mitsuba2/resources/data/ior"
       then [(path, [], ["copper.eta.spd"; "copper.k.spd"])]
       else [];
     read_text := fun path =>
       if String.eqb path "mitsuba2/resources/data/ior/copper.eta.spd"
       then Some "400 1.1"
       else if String.eqb path "mitsuba2/resources/data/ior/copper.k.spd"
       then Some "400 2.3"
       else None |}.

(** The object with one [[wavelength, value]] pair per table. *)
Definition copper_nested : json :=
  JObject
    [("Eta", texture (JArray [JArray [JNumber 400; JNumber 1.1]]));
     ("K", texture (JArray [JArray [JNumber 400; JNumber 2.3]]))].

(** The object with each table flattened to its two numbers. *)
Definition copper_flat : json :=
  JObject
    [("Eta", texture (JArray [JNumber 400; JNumber 1.1]));
     ("K", texture (JArray [JNumber 400; JNumber 2.3]))].

End Examples.

(* ===================================================================== *)
(** * Reading a run *)
(* ===================================================================== *)

Module Runs.
Import Py Json Sys.

(** The longest prefix of a list whose elements all pass a test. *)
Fixpoint take_while {A : Type} (test : A -> bool) (xs : list A) : list A :=
  match xs with
  | [] => []
  | x :: rest => if test x then x :: take_while test rest else []
  end.

(** The paths of the files a run has written, in order. *)
Fixpoint dumped_paths (events : list event) : list string :=
  match events with
  | [] => []
  | Dump path _ :: rest => path :: dumped_paths rest
  | _ :: rest => dumped_paths rest
  end.

(** The output file of a material. *)
Definition output_path (name : string) : string := "ior/" ++ name ++ ".json".

(** A material of the CSV importer whose file can be read and converted. *)
Definition converts (w : world) (material : string * string) : bool :=
  match read_text w (snd material) with
  | Some data =>
      match RefractiveIndex.convert data with
      | Ok _ => true
      | Raise _ => false
      end
  | None => false
  end.

(** A JSON array of exactly two numbers. *)
Definition is_pair (j : json) : Prop :=
  exists wavelength value, j = JArray [JNumber wavelength; JNumber value].

(** A row of numbers as a JSON array. *)
Definition row_array (row : list float) : json := JArray (map JNumber row).

(** Samples outside the band, on either side. *)
Definition below_band (r : RefractiveIndex.sample) : Prop :=
  (RefractiveIndex.wavelength r <? 360)%float = true.

Definition above_band (r : RefractiveIndex.sample) : Prop :=
  (830 <? RefractiveIndex.wavelength r)%float = true.

End Runs.

(* ===================================================================== *)
(** * Notions for relating the reader of numbers to the grammar *)
(* ===================================================================== *)

Module Reading.
Import Py.

(** A character that is neither whitespace for [float] nor a comma. *)
Definition plain_b (c : ascii) : bool :=
  negb (is_float_space c) && negb (Ascii.eqb c ",").

Definition plain (s : string) : Prop :=
  Forall (fun c => plain_b c = true) (list_ascii_of_string s).

Definition comma_free (s : string) : Prop :=
  Forall (fun c => Ascii.eqb c "," = false) (list_ascii_of_string s).

(** A text at which reading digits stops at once. *)
Definition stops (r : string) : Prop := digits_rest true r = ([], r).

End Reading.

(* ===================================================================== *)
(** * Order on binary64 values *)
(* ===================================================================== *)

Module FloatOrder.

(** A non-NaN value as a triple ordered lexicographically: class
    (infinities, finite by sign, zero), then exponent, then mantissa. *)
Definition rank (x : spec_float) : Z * Z * Z :=
  match x with
  | S754_nan => (0, 0, 0)
  | S754_zero _ => (0, 0, 0)
  | S754_infinity true => (-2, 0, 0)
  | S754_infinity false => (2, 0, 0)
  | S754_finite true m e => (-1, - e, Zneg m)
  | S754_finite false m e => (1, e, Zpos m)
  end.

Definition lex (a b : Z * Z * Z) : comparison :=
  let '(a1, a2, a3) := a in
  let '(b1, b2, b3) := b in
  match a1 ?= b1 with
  | Eq => match a2 ?= b2 with
          | Eq => a3 ?= b3
          | c => c
          end
  | c => c
  end.

Definition is_nan (x : spec_float) : bool :=
  match x with
  | S754_nan => true
  | _ => false
  end.

End FloatOrder.

(* ===================================================================== *)
(** * Properties *)
(* ===================================================================== *)

(** ** Comparisons of floats *)

Section FloatFacts.
Import FloatOrder.

Lemma SFcompare_rank x y :
  is_nan x = false -> is_nan y = false ->
  SFcompare x y = Some (lex (rank x) (rank y)).
Proof.
  destruct x as [[|]|[|]| |[|] m e], y as [[|]|[|]| |[|] m' e'];
    simpl; intros; try discriminate; try reflexivity.
  rewrite Z.compare_opp, (Z.compare_antisym e e').
  destruct (e ?= e'); reflexivity.
Qed.

Lemma SFcompare_nan x y :
  is_nan x || is_nan y = true -> SFcompare x y = None.
Proof.
  destruct x as [[|]|[|]| |[|] m e], y as [[|]|[|]| |[|] m' e'];
    simpl; intros; try discriminate; reflexivity.
Qed.

Lemma lex_spec a b :
  match lex a b with
  | Eq => a = b
  | Lt => let '(a1, a2, a3) := a in let '(b1, b2, b3) := b in
          a1 < b1 \/ (a1 = b1 /\ (a2 < b2 \/ (a2 = b2 /\ a3 < b3)))
  | Gt => let '(a1, a2, a3) := a in let '(b1, b2, b3) := b in
          b1 < a1 \/ (a1 = b1 /\ (b2 < a2 \/ (a2 = b2 /\ b3 < a3)))
  end.
Proof.
  destruct a as [[a1 a2] a3], b as [[b1 b2] b3]. unfold lex.
  destruct (Z.compare_spec a1 b1); try lia;
    destruct (Z.compare_spec a2 b2); try lia;
    destruct (Z.compare_spec a3 b3); try lia.
  subst. reflexivity.
Qed.

Lemma leb_rank x y :
  (x <=? y)%float = true <->
  is_nan (Prim2SF x) = false /\ is_nan (Prim2SF y) = false /\
  lex (rank (Prim2SF x)) (rank (Prim2SF y)) <> Gt.
Proof.
  rewrite leb_spec. unfold SFleb.
  destruct (is_nan (Prim2SF x)) eqn:Nx.
  { rewrite SFcompare_nan by (rewrite Nx; reflexivity).
    split; [discriminate | intros [? _]; discriminate]. }
  destruct (is_nan (Prim2SF y)) eqn:Ny.
  { rewrite SFcompare_nan by (rewrite Ny; apply orb_true_r).
    split; [discriminate | intros [_ [? _]]; discriminate]. }
  rewrite SFcompare_rank by assumption.
  destruct (lex _ _); split; intros H; try discriminate;
    try (repeat split; congruence); try reflexivity.
  destruct H as [_ [_ H]]. congruence.
Qed.

Lemma ltb_rank x y :
  (x <? y)%float = true <->
  is_nan (Prim2SF x) = false /\ is_nan (Prim2SF y) = false /\
  lex (rank (Prim2SF x)) (rank (Prim2SF y)) = Lt.
Proof.
  rewrite ltb_spec. unfold SFltb.
  destruct (is_nan (Prim2SF x)) eqn:Nx.
  { rewrite SFcompare_nan by (rewrite Nx; reflexivity).
    split; [discriminate | intros [? _]; discriminate]. }
  destruct (is_nan (Prim2SF y)) eqn:Ny.
  { rewrite SFcompare_nan by (rewrite Ny; apply orb_true_r).
    split; [discriminate | intros [_ [? _]]; discriminate]. }
  rewrite SFcompare_rank by assumption.
  destruct (lex _ _); split; intros H; try discriminate;
    try (repeat split; congruence); try reflexivity;
    destruct H as [_ [_ H]]; congruence.
Qed.

Lemma lex_le_trans a b c :
  lex a b <> Gt -> lex b c <> Gt -> lex a c <> Gt.
Proof.
  intros Hab Hbc.
  pose proof (lex_spec a b) as L1. pose proof (lex_spec b c) as L2.
  pose proof (lex_spec a c) as L3.
  destruct a as [[a1 a2] a3], b as [[b1 b2] b3], c as [[c1 c2] c3].
  destruct (lex (a1, a2, a3) (b1, b2, b3)); try congruence;
    destruct (lex (b1, b2, b3) (c1, c2, c3)); try congruence;
    destruct (lex (a1, a2, a3) (c1, c2, c3)); try discriminate;
    try (inversion L1; subst); try (inversion L2; subst); lia.
Qed.

Lemma lex_not_lt_ge a b : lex a b <> Lt -> lex b a <> Gt.
Proof.
  intros Hab.
  pose proof (lex_spec a b) as L1. pose proof (lex_spec b a) as L2.
  destruct a as [[a1 a2] a3], b as [[b1 b2] b3].
  destruct (lex (a1, a2, a3) (b1, b2, b3)); try congruence;
    destruct (lex (b1, b2, b3) (a1, a2, a3)); try discriminate;
    try (inversion L1; subst); lia.
Qed.

(** [<=] is transitive. *)
Lemma leb_trans x y z :
  (x <=? y)%float = true -> (y <=? z)%float = true ->
  (x <=? z)%float = true.
Proof.
  rewrite !leb_rank. intros (Nx & Ny & Hxy) (_ & Nz & Hyz).
  repeat split; auto. eapply lex_le_trans; eauto.
Qed.

(** Only a NaN fails to be at most itself. *)
Lemma leb_refl_l x y : (x <=? y)%float = true -> (x <=? x)%float = true.
Proof.
  rewrite !leb_rank. intros (Nx & Ny & Hxy). repeat split; auto.
  pose proof (lex_spec (rank (Prim2SF x)) (rank (Prim2SF x))) as L.
  destruct (rank (Prim2SF x)) as [[a b] c].
  destruct (lex (a, b, c) (a, b, c)); try discriminate. lia.
Qed.

Lemma leb_refl_r x y : (x <=? y)%float = true -> (y <=? y)%float = true.
Proof.
  rewrite !leb_rank. intros (Nx & Ny & Hxy). repeat split; auto.
  pose proof (lex_spec (rank (Prim2SF y)) (rank (Prim2SF y))) as L.
  destruct (rank (Prim2SF y)) as [[a b] c].
  destruct (lex (a, b, c) (a, b, c)); try discriminate. lia.
Qed.

(** Two values that are not NaN are comparable. *)
Lemma not_ltb_leb x y :
  (x <=? x)%float = true -> (y <=? y)%float = true ->
  (x <? y)%float = false -> (y <=? x)%float = true.
Proof.
  intros Hx Hy Hlt. apply leb_rank in Hx as (Nx & _ & _).
  apply leb_rank in Hy as (Ny & _ & _).
  apply leb_rank. repeat split; auto.
  apply lex_not_lt_ge. intros Hc.
  assert ((x <? y)%float = true) by (apply ltb_rank; auto).
  congruence.
Qed.

Lemma ltb_leb x y : (x <? y)%float = true -> (x <=? y)%float = true.
Proof.
  rewrite ltb_rank, leb_rank. intros (Nx & Ny & H).
  repeat split; auto. congruence.
Qed.

Lemma leb_not_ltb x y : (x <=? y)%float = true -> (y <? x)%float = false.
Proof.
  intros H. destruct (y <? x)%float eqn:E; auto.
  apply leb_rank in H as (Nx & Ny & H). apply ltb_rank in E as (_ & _ & E).
  pose proof (lex_spec (rank (Prim2SF x)) (rank (Prim2SF y))) as L1.
  pose proof (lex_spec (rank (Prim2SF y)) (rank (Prim2SF x))) as L2.
  destruct (rank (Prim2SF x)) as [[a1 a2] a3].
  destruct (rank (Prim2SF y)) as [[b1 b2] b3].
  rewrite E in L2.
  destruct (lex (a1, a2, a3) (b1, b2, b3)); try congruence;
    try (inversion L1; subst); lia.
Qed.

(** A value is at most its magnitude, so a bound on the magnitude bounds
    the value. *)
Lemma abs_ltb x c : (abs x <? c)%float = true -> (x <? c)%float = true.
Proof.
  rewrite !ltb_rank, abs_spec. intros (Nx & Nc & H).
  assert (Nx' : is_nan (Prim2SF x) = false)
    by (destruct (Prim2SF x) as [[|]|[|]| |[|] m e]; auto).
  repeat split; auto.
  pose proof (lex_spec (rank (SFabs (Prim2SF x))) (rank (Prim2SF c))) as L1.
  pose proof (lex_spec (rank (Prim2SF x)) (rank (Prim2SF c))) as L2.
  rewrite H in L1.
  destruct (rank (Prim2SF c)) as [[c1 c2] c3].
  destruct (Prim2SF x) as [[|]|[|]| |[|] m e];
    cbn [rank SFabs is_nan] in *; auto; try discriminate;
    match goal with
    | |- lex ?a ?b = Lt =>
        destruct (lex a b); auto; try (inversion L2; subst); lia
    end.
Qed.

Lemma ltb_leb_trans x y z :
  (x <? y)%float = true -> (y <=? z)%float = true -> (x <? z)%float = true.
Proof.
  rewrite !ltb_rank, leb_rank. intros (Nx & Ny & Hxy) (_ & Nz & Hyz).
  repeat split; auto.
  pose proof (lex_spec (rank (Prim2SF x)) (rank (Prim2SF y))) as L1.
  pose proof (lex_spec (rank (Prim2SF y)) (rank (Prim2SF z))) as L2.
  pose proof (lex_spec (rank (Prim2SF x)) (rank (Prim2SF z))) as L3.
  destruct (rank (Prim2SF x)) as [[a1 a2] a3].
  destruct (rank (Prim2SF y)) as [[b1 b2] b3].
  destruct (rank (Prim2SF z)) as [[c1 c2] c3].
  rewrite Hxy in L1.
  destruct (lex (b1, b2, b3) (c1, c2, c3)); try congruence;
    destruct (lex (a1, a2, a3) (c1, c2, c3)); try reflexivity;
    try (inversion L2; subst); try (inversion L3; subst); lia.
Qed.

End FloatFacts.

(** ** The two trimming loops *)

Section Trimming.
Import Py RefractiveIndex Spec.

Lemma item_index res i :
  0 <= i < Z.of_nat (List.length res) ->
  item res i = nth_error res (Z.to_nat i).
Proof.
  intros H. unfold item.
  destruct (Z.ltb_spec i 0); [lia|].
  destruct (Z.leb_spec 0 i); [|lia].
  destruct (Z.ltb_spec i (Z.of_nat (List.length res))); [|lia].
  reflexivity.
Qed.

Lemma item_from_end res i :
  - Z.of_nat (List.length res) <= i < 0 ->
  item res i = nth_error res (Z.to_nat (i + Z.of_nat (List.length res))).
Proof.
  intros H. unfold item.
  destruct (Z.ltb_spec i 0); [|lia].
  destruct (Z.leb_spec 0 (i + Z.of_nat (List.length res))); [|lia].
  destruct (Z.ltb_spec (i + Z.of_nat (List.length res))
              (Z.of_nat (List.length res))); [|lia].
  reflexivity.
Qed.

Lemma front_guard_spec res : front_guard res = second_below_360 res.
Proof.
  unfold front_guard.
  destruct res as [|a [|b res]]; try reflexivity.
  rewrite item_index by (cbn [List.length]; lia).
  replace (2 <=? Z.of_nat (List.length (a :: b :: res))) with true
    by (symmetry; apply Z.leb_le; cbn [List.length]; lia).
  reflexivity.
Qed.

Lemma pop_last_spec res : pop_last res = discard_last res.
Proof.
  unfold pop_last, discard_last.
  destruct res as [|a res] using rev_ind; [reflexivity|].
  rewrite removelast_last, rev_app_distr. simpl. symmetry. apply rev_involutive.
Qed.

Lemma back_guard_spec res : back_guard res = second_to_last_above_830 res.
Proof.
  unfold back_guard, second_to_last_above_830.
  destruct (rev res) as [|z [|y front]] eqn:R.
  - apply (f_equal (@List.length _)) in R. rewrite length_rev in R.
    simpl in R. rewrite R. reflexivity.
  - apply (f_equal (@List.length _)) in R. rewrite length_rev in R.
    simpl in R. rewrite R. reflexivity.
  - assert (L : List.length res = S (S (List.length front))).
    { rewrite <- length_rev, R. reflexivity. }
    assert (N : nth_error res (List.length front) = Some y).
    { pose proof (nth_error_rev 1 res) as E. rewrite R in E. simpl in E.
      replace (Nat.ltb 1 (List.length res)) with true in E
        by (symmetry; apply Nat.ltb_lt; lia).
      rewrite E. f_equal. lia. }
    rewrite item_from_end by lia.
    replace (Z.to_nat (-2 + Z.of_nat (List.length res)))
      with (List.length front) by lia.
    rewrite N.
    replace (2 <=? Z.of_nat (List.length res)) with true
      by (symmetry; apply Z.leb_le; lia).
    reflexivity.
Qed.

Lemma trim_front_unfold res :
  trim_front res = if front_guard res then trim_front (pop_first res) else res.
Proof.
  funelim (trim_front res); rewrite G; reflexivity.
Qed.

Lemma trim_back_unfold res :
  trim_back res = if back_guard res then trim_back (pop_last res) else res.
Proof.
  funelim (trim_back res); rewrite G; reflexivity.
Qed.

Lemma trim_front_repeatedly res :
  repeatedly second_below_360 discard_first res (trim_front res).
Proof.
  funelim (trim_front res).
  - apply repeat_again; [rewrite <- front_guard_spec; exact G | assumption].
  - apply repeat_stop. rewrite <- front_guard_spec. exact G.
Qed.

Lemma trim_back_repeatedly res :
  repeatedly second_to_last_above_830 discard_last res (trim_back res).
Proof.
  funelim (trim_back res).
  - apply repeat_again; [rewrite <- back_guard_spec; exact G|].
    rewrite <- pop_last_spec. assumption.
  - apply repeat_stop. rewrite <- back_guard_spec. exact G.
Qed.

Lemma repeatedly_functional condition discard t out1 out2 :
  repeatedly condition discard t out1 ->
  repeatedly condition discard t out2 -> out1 = out2.
Proof.
  intros H1. revert out2.
  induction H1 as [t Hstop | t t' Hgo Hrest IH]; intros out2 H2.
  - inversion H2; subst; [reflexivity | congruence].
  - inversion H2; subst; [congruence | apply IH; assumption].
Qed.

Lemma trim_front_guard res : front_guard (trim_front res) = false.
Proof. funelim (trim_front res); assumption. Qed.

Lemma trim_back_guard res : back_guard (trim_back res) = false.
Proof. funelim (trim_back res); assumption. Qed.

Lemma trim_front_fixed res : front_guard res = false -> trim_front res = res.
Proof. intros G. rewrite trim_front_unfold, G. reflexivity. Qed.

Lemma trim_back_fixed res : back_guard res = false -> trim_back res = res.
Proof. intros G. rewrite trim_back_unfold, G. reflexivity. Qed.

Lemma pop_last_keeps_front_guard res :
  front_guard res = false -> front_guard (pop_last res) = false.
Proof.
  rewrite !front_guard_spec. unfold pop_last.
  destruct res as [|a [|b [|c res]]]; simpl; auto.
Qed.

Lemma trim_back_keeps_front_guard res :
  front_guard res = false -> front_guard (trim_back res) = false.
Proof.
  funelim (trim_back res); intros F; [|assumption].
  apply H. apply pop_last_keeps_front_guard. assumption.
Qed.

Lemma trim_front_nil res : trim_front res = [] -> res = [].
Proof.
  funelim (trim_front res); intros E; [|assumption].
  apply H in E. pose proof G as G'. rewrite front_guard_spec in G'.
  destruct res as [|a [|b res]]; simpl in *; discriminate.
Qed.

Lemma trim_back_nil res : trim_back res = [] -> res = [].
Proof.
  funelim (trim_back res); intros E; [|assumption].
  apply H in E. pose proof G as G'. rewrite back_guard_spec in G'.
  unfold pop_last in E.
  destruct res as [|a [|b res]]; simpl in *; try discriminate; auto.
Qed.

Lemma normalize_nil res : normalize res = [] <-> res = [].
Proof.
  unfold normalize. split.
  - intros E. apply trim_front_nil, trim_back_nil, E.
  - intros ->. reflexivity.
Qed.

Lemma ascending_tail a t : ascending (a :: t) -> ascending t.
Proof. intros H. inversion H; subst; [constructor | assumption]. Qed.

Lemma ascending_pop_first t : ascending t -> ascending (pop_first t).
Proof.
  destruct t as [|a t]; simpl; [auto|]. apply ascending_tail.
Qed.

Lemma ascending_pop_last t : ascending t -> ascending (pop_last t).
Proof.
  unfold pop_last. induction 1 as [|r|a b t Hab Hrest IH]; simpl;
    try constructor.
  destruct t as [|c t]; [constructor|].
  simpl in IH. constructor; assumption.
Qed.

Lemma ascending_trim_front t : ascending t -> ascending (trim_front t).
Proof.
  funelim (trim_front t); intros A; [|assumption].
  apply H, ascending_pop_first, A.
Qed.

Lemma ascending_trim_back t : ascending t -> ascending (trim_back t).
Proof.
  funelim (trim_back t); intros A; [|assumption].
  apply H, ascending_pop_last, A.
Qed.

Lemma ascending_head a t :
  ascending (a :: t) -> forall b, In b t -> wavelength_le a b.
Proof.
  revert a. induction t as [|c t IH]; intros a A b Hin; [destruct Hin|].
  inversion A as [| |a' c' t' Hac Hrest]; subst.
  destruct Hin as [->|Hin]; [assumption|].
  unfold wavelength_le in *. eapply leb_trans; [exact Hac|].
  apply (IH c Hrest b Hin).
Qed.

Lemma ascending_pairwise t :
  ascending t ->
  forall i j a b, (i < j)%nat ->
    nth_error t i = Some a -> nth_error t j = Some b -> wavelength_le a b.
Proof.
  induction t as [|c t IH]; intros A i j a b Hij Hi Hj.
  - destruct i; discriminate.
  - destruct j as [|j]; [lia|]. simpl in Hj.
    destruct i as [|i]; simpl in Hi.
    + inversion Hi; subst. eapply ascending_head; [exact A|].
      eapply nth_error_In; exact Hj.
    + eapply (IH (ascending_tail _ _ A) i j); eauto. lia.
Qed.

Lemma second_to_last_nth t :
  (2 <= List.length t)%nat ->
  exists y, nth_error t (List.length t - 2) = Some y /\
            second_to_last_above_830 t = (830 <? wavelength y)%float.
Proof.
  intros L. unfold second_to_last_above_830.
  destruct (rev t) as [|z [|y front]] eqn:R;
    try (apply (f_equal (@List.length _)) in R; rewrite length_rev in R;
         simpl in R; lia).
  exists y. split; [|reflexivity].
  pose proof (nth_error_rev 1 t) as E. rewrite R in E. simpl in E.
  replace (Nat.ltb 1 (List.length t)) with true in E
    by (symmetry; apply Nat.ltb_lt; lia).
  rewrite E. reflexivity.
Qed.

(** A sorted table on which both loops have stopped is in the band except
    for its two ends. *)
Lemma stopped_interior t :
  ascending t ->
  second_below_360 t = false -> second_to_last_above_830 t = false ->
  interior_in_band t.
Proof.
  intros A F B i r Hpos Hlast Hr.
  assert (L : (3 <= List.length t)%nat) by lia.
  split.
  - destruct t as [|a [|b t]]; [simpl in L; lia ..|].
    simpl in F.
    assert (Hab : wavelength_le a b).
    { apply (ascending_pairwise _ A 0%nat 1%nat); auto. }
    assert (Hb : (360 <=? wavelength b)%float = true).
    { apply not_ltb_leb; [eapply leb_refl_r; exact Hab | reflexivity | exact F]. }
    destruct (Nat.eq_dec i 1) as [->|Hne].
    + simpl in Hr. inversion Hr; subst. exact Hb.
    + eapply leb_trans; [exact Hb|].
      apply (ascending_pairwise _ A 1%nat i); auto. lia.
  - destruct (second_to_last_nth t) as (y & Hy & E); [lia|].
    rewrite E in B.
    assert (Hz : exists z, nth_error t (List.length t - 1) = Some z).
    { destruct (nth_error t (List.length t - 1)) eqn:N; [eauto|].
      apply nth_error_None in N. lia. }
    destruct Hz as (z & Hz).
    assert (Hyz : wavelength_le y z).
    { apply (ascending_pairwise _ A (List.length t - 2)%nat
               (List.length t - 1)%nat); auto. lia. }
    assert (Hy830 : (wavelength y <=? 830)%float = true).
    { apply not_ltb_leb; [reflexivity | eapply leb_refl_l; exact Hyz | exact B]. }
    destruct (Nat.eq_dec i (List.length t - 2)) as [->|Hne].
    + rewrite Hy in Hr. inversion Hr; subst. exact Hy830.
    + eapply leb_trans; [|exact Hy830].
      apply (ascending_pairwise _ A i (List.length t - 2)%nat); auto. lia.
Qed.

Lemma normalize_interior rows :
  ascending rows -> interior_in_band (normalize rows).
Proof.
  intros A. unfold normalize. apply stopped_interior.
  - apply ascending_trim_back, ascending_trim_front, A.
  - rewrite <- front_guard_spec.
    apply trim_back_keeps_front_guard, trim_front_guard.
  - rewrite <- back_guard_spec. apply trim_back_guard.
Qed.

Lemma parse_inv s t :
  parse s = Ok t ->
  exists rows, parse_rows s = Ok rows /\ t = normalize rows /\ t <> [].
Proof.
  unfold parse. destruct (parse_rows s) as [rows|e]; simpl; [|discriminate].
  destruct (Z.eqb_spec (Z.of_nat (List.length (normalize rows))) 0) as [E|E];
    [discriminate|].
  intros H. inversion H; subst. exists rows. repeat split.
  intros N. rewrite N in E. simpl in E. lia.
Qed.

End Trimming.

(** ** Substring search and slices *)

Section Searching.
Import Py Spec.

Lemma drop_length n s :
  String.length (drop n s) = (String.length s - n)%nat.
Proof.
  revert s. induction n as [|n IH]; intros [|c s]; simpl; auto; lia.
Qed.

Lemma drop_all n s : (String.length s <= n)%nat -> drop n s = EmptyString.
Proof.
  revert s. induction n as [|n IH]; intros [|c s]; simpl; intros H;
    try reflexivity; try lia.
  apply IH. lia.
Qed.

Lemma take_all n s : (String.length s <= n)%nat -> take n s = s.
Proof.
  revert s. induction n as [|n IH]; intros [|c s]; simpl; intros H;
    try reflexivity; try lia.
  f_equal. apply IH. lia.
Qed.

Lemma take_empty n : take n EmptyString = EmptyString.
Proof. destruct n; reflexivity. Qed.

Lemma startswith_length s sub :
  startswith s sub = true -> (String.length sub <= String.length s)%nat.
Proof.
  revert s. induction sub as [|p sub IH]; intros [|c s]; simpl; intros H;
    try lia; try discriminate.
  apply andb_prop in H as [_ H]. apply IH in H. lia.
Qed.

Lemma occurs_at_bound s sub i :
  occurs_at s sub i -> (i + String.length sub <= String.length s)%nat.
Proof.
  intros [Hi H]. apply startswith_length in H. rewrite drop_length in H. lia.
Qed.

Lemma occurs_at_next c s sub i :
  occurs_at (String c s) sub (S i) <-> occurs_at s sub i.
Proof. unfold occurs_at. simpl. split; intros [? ?]; split; auto; lia. Qed.

Lemma occurs_at_here s sub :
  occurs_at s sub 0 <-> startswith s sub = true.
Proof.
  unfold occurs_at. simpl. split; [intros [_ H]; exact H|].
  intros H. split; [lia | exact H].
Qed.

(** [find] returns the first offset at which the text occurs, and [-1]
    exactly when it occurs nowhere. *)
Lemma find_from_spec i s sub :
  (absent s sub /\ find_from i s sub = -1) \/
  (exists n, first_at s sub n /\ find_from i s sub = i + Z.of_nat n).
Proof.
  revert i. induction s as [|c s IH]; intros i; cbn [find_from].
  - destruct (startswith EmptyString sub) eqn:E.
    + right. exists 0%nat. split; [|lia].
      split; [apply occurs_at_here; exact E | intros j Hj; lia].
    + left. split; [|reflexivity]. intros [|n] H.
      * apply occurs_at_here in H. congruence.
      * destruct H as [H _]. simpl in H. lia.
  - destruct (startswith (String c s) sub) eqn:E.
    + right. exists 0%nat. split; [|lia].
      split; [apply occurs_at_here; exact E | intros j Hj; lia].
    + destruct (IH (i + 1)) as [[A F]|(n & [O M] & F)].
      * left. split; [|exact F]. intros [|n] H.
        -- apply occurs_at_here in H. congruence.
        -- apply occurs_at_next in H. apply (A n H).
      * right. exists (S n). split; [|lia]. split.
        -- apply occurs_at_next. exact O.
        -- intros [|j] Hj H.
           ++ apply occurs_at_here in H. congruence.
           ++ apply occurs_at_next in H. apply (M j); [lia | exact H].
Qed.

Lemma first_at_unique s sub n m :
  first_at s sub n -> first_at s sub m -> n = m.
Proof.
  intros [On Mn] [Om Mm].
  destruct (Nat.lt_trichotomy n m) as [H|[H|H]]; auto.
  - destruct (Mm n H On).
  - destruct (Mn m H Om).
Qed.

Lemma find_first s sub n : first_at s sub n -> find s sub = Z.of_nat n.
Proof.
  intros F. unfold find.
  destruct (find_from_spec 0 s sub) as [[A _]|(m & Fm & E)].
  - destruct F as [O _]. destruct (A n O).
  - rewrite E. rewrite (first_at_unique _ _ _ _ F Fm). lia.
Qed.

Lemma find_absent s sub : absent s sub <-> find s sub = -1.
Proof.
  unfold find. split.
  - intros A. destruct (find_from_spec 0 s sub) as [[_ E]|(m & [O _] & _)];
      [exact E | destruct (A m O)].
  - intros E. destruct (find_from_spec 0 s sub) as [[A _]|(m & _ & E')];
      [exact A | lia].
Qed.

Lemma find_present s sub :
  find s sub <> -1 -> exists n, first_at s sub n /\ find s sub = Z.of_nat n.
Proof.
  intros H. unfold find in *.
  destruct (find_from_spec 0 s sub) as [[_ E]|(m & F & E)]; [congruence|].
  exists m. split; [exact F | lia].
Qed.

Lemma slice_from_drop s n :
  slice_from s (Z.of_nat n) = drop n s.
Proof.
  unfold slice_from, clamp_index, len.
  destruct (Z.ltb_spec (Z.of_nat n) 0); [lia|].
  destruct (Nat.le_gt_cases n (String.length s)).
  - f_equal. lia.
  - rewrite (drop_all n) by lia. apply drop_all. lia.
Qed.

Lemma take_clamp n s : take (Nat.min n (String.length s)) s = take n s.
Proof.
  destruct (Nat.le_gt_cases n (String.length s)).
  - f_equal. lia.
  - rewrite (take_all n) by lia. apply take_all. lia.
Qed.

Lemma slice_between s a b :
  slice s (Z.of_nat a) (Z.of_nat b) = between s a b.
Proof.
  unfold slice, between, clamp_index, len.
  destruct (Z.ltb_spec (Z.of_nat a) 0); [lia|].
  destruct (Z.ltb_spec (Z.of_nat b) 0); [lia|].
  destruct (Nat.le_gt_cases (String.length s) a) as [Ha|Ha].
  - rewrite (drop_all a) by lia. rewrite take_empty.
    replace (Z.to_nat (Z.min (Z.of_nat a) (Z.of_nat (String.length s))))
      with (String.length s) by lia.
    rewrite drop_all by lia. apply take_empty.
  - replace (Z.to_nat (Z.min (Z.of_nat a) (Z.of_nat (String.length s))))
      with a by lia.
    rewrite <- (take_clamp (b - a)). rewrite drop_length.
    f_equal. lia.
Qed.

End Searching.

(** ** Errors of [parse] *)

Section Parsing.
Import Py RefractiveIndex Spec.

Lemma len_zero line : (len line =? 0) = true <-> line = EmptyString.
Proof.
  unfold len. destruct line; simpl; split; intros H;
    try reflexivity; try discriminate.
Qed.

Lemma float_of_str_raises s e : float_of_str s = Raise e -> e = ValueError.
Proof.
  unfold float_of_str, float_of_ascii.
  destruct (sign_of (float_strip s)) as [neg body].
  destruct (_ || _); [discriminate|].
  destruct (String.eqb _ _); [discriminate|].
  destruct (floatnumber true neg body); [discriminate|]. congruence.
Qed.

Lemma map_result_raises {A B} (f : A -> result B) xs e :
  (forall x e', f x = Raise e' -> e' = ValueError) ->
  map_result f xs = Raise e -> e = ValueError.
Proof.
  intros Hf. induction xs as [|x xs IH]; simpl; [discriminate|].
  destruct (f x) eqn:E; simpl.
  - destruct (map_result f xs); simpl; [discriminate|].
    intros H. inversion H; subst. apply IH. reflexivity.
  - intros H. inversion H; subst. eapply Hf; eauto.
Qed.

Lemma parse_line_raises line e : parse_line line = Raise e -> e = ValueError.
Proof.
  unfold parse_line.
  destruct (map_result float_of_str (split line ",")) as [fields|e'] eqn:E;
    simpl.
  - destruct fields as [|k [|v [|x fields]]]; congruence.
  - intros H. inversion H; subst.
    eapply map_result_raises; [|exact E]. apply float_of_str_raises.
Qed.

Lemma parse_lines_raises res lines e :
  parse_lines res lines = Raise e <->
  e = ValueError /\
  Exists (fun line => line <> EmptyString /\
                      parse_line line = Raise ValueError) lines.
Proof.
  revert res. induction lines as [|line rest IH]; intros res; simpl.
  - split; [discriminate | intros [_ H]; inversion H].
  - destruct (len line =? 0) eqn:Z.
    + rewrite IH. apply len_zero in Z. subst. split; intros [He H].
      * split; [exact He | right; exact H].
      * split; [exact He|]. inversion H as [? ? [N _]|]; subst;
          [congruence | assumption].
    + assert (N : line <> EmptyString).
      { intros ->. discriminate. }
      destruct (parse_line line) as [r|e'] eqn:P; simpl.
      * rewrite IH. split; intros [He H].
        -- split; [exact He | right; exact H].
        -- split; [exact He|]. inversion H as [? ? [_ M]|]; subst;
             [congruence | assumption].
      * pose proof (parse_line_raises _ _ P). subst e'. split.
        -- intros H. inversion H; subst. split; [reflexivity|].
           left. split; assumption.
        -- intros [-> _]. reflexivity.
Qed.

Lemma parse_lines_ok res lines out :
  parse_lines res lines = Ok out ->
  exists rows, out = (res ++ rows)%list /\
               (rows = [] <-> Forall (fun l => l = EmptyString) lines).
Proof.
  revert res. induction lines as [|line rest IH]; intros res; simpl.
  - intros H. inversion H; subst. exists []. rewrite app_nil_r.
    split; [reflexivity|]. split; auto.
  - destruct (len line =? 0) eqn:Z.
    + apply len_zero in Z. subst. intros H.
      destruct (IH _ H) as (rows & -> & B). exists rows.
      split; [reflexivity|]. rewrite B. split.
      * intros F. constructor; auto.
      * intros F. inversion F; auto.
    + assert (N : line <> EmptyString).
      { intros ->. discriminate. }
      destruct (parse_line line) as [r|e'] eqn:P; simpl; [|discriminate].
      intros H. destruct (IH _ H) as (rows & -> & B).
      exists (r :: rows). rewrite <- app_assoc. split; [reflexivity|].
      split; [discriminate|]. intros F. inversion F; subst. congruence.
Qed.

Lemma parse_rows_nil s :
  parse_rows s = Ok [] <-> blank s.
Proof.
  unfold parse_rows, blank. split.
  - intros H. destruct (parse_lines_ok _ _ _ H) as (rows & E & B).
    simpl in E. subst rows. apply B. reflexivity.
  - generalize (@nil sample) as res.
    induction (splitlines s) as [|line rest IH]; intros res F; [reflexivity|].
    inversion F; subst. simpl. apply IH. assumption.
Qed.

End Parsing.

(** ** The claims about the range normalizer, [parse] and the command line *)

Section Claims.
Import Py Json Sys RefractiveIndex Spec Examples.

(** The normalizer leaves its own results alone, whatever the rows. *)
Lemma normalize_idempotent rows :
  normalize (normalize rows) = normalize rows.
Proof.
  unfold normalize.
  rewrite (trim_front_fixed (trim_back (trim_front rows)))
    by (apply trim_back_keeps_front_guard, trim_front_guard).
  apply trim_back_fixed, trim_back_guard.
Qed.

Lemma normalizes_iff rows out :
  normalizes rows out <-> normalize rows = out.
Proof.
  unfold normalizes, normalize. split.
  - intros (trimmed & F & B).
    rewrite (repeatedly_functional _ _ _ _ _ (trim_front_repeatedly rows) F).
    apply (repeatedly_functional _ _ _ _ _ (trim_back_repeatedly trimmed) B).
  - intros <-. exists (trim_front rows). split.
    + apply trim_front_repeatedly.
    + apply trim_back_repeatedly.
Qed.

(** C2. Inside [parse], the range normalizer computes exactly what the
    contract says: it discards the first sample while the list has at
    least two samples and the second one is below 360 nm, then discards
    the last sample while the list has at least two samples and the
    second-to-last one is above 830 nm.  The contract has one outcome, the
    one the two loops compute, and it is the table [parse] returns. *)
Theorem C2_normalizer_contract :
  (forall rows out, normalizes rows out <-> normalize rows = out) /\
  (forall lines table,
      parse lines = Ok table ->
      exists rows, parse_rows lines = Ok rows /\ normalizes rows table).
Proof.
  split; [exact normalizes_iff|].
  intros lines table H.
  destruct (parse_inv _ _ H) as (rows & R & -> & _).
  exists rows. split; [exact R|]. apply normalizes_iff. reflexivity.
Qed.

(** C6. The section with rows 0.360, 0.5 and 0.83 micrometres parses to
    the wavelengths 360, 500 and 830 nm with the values 1.5, 1.6 and 1.7,
    and the range normalizer discards none of the three samples. *)
Theorem C6_micrometres_to_nanometres :
  parse band_rows = Ok [(360, 1.5); (500, 1.6); (830, 1.7)]%float /\
  parse_rows band_rows = parse band_rows /\
  (forall table, parse band_rows = Ok table ->
                 map wavelength table = [360; 500; 830]%float).
Proof.
  assert (E : parse band_rows = Ok [(360, 1.5); (500, 1.6); (830, 1.7)]%float)
    by (vm_compute; reflexivity).
  split; [exact E|]. split; [vm_compute; reflexivity|].
  intros table H. rewrite E in H. inversion H; subst. reflexivity.
Qed.

Lemma in_band_guards rows :
  (forall r, In r rows -> in_band r) ->
  front_guard rows = false /\ back_guard rows = false.
Proof.
  intros H. rewrite front_guard_spec, back_guard_spec. split.
  - destruct rows as [|a [|b rows]]; try reflexivity. simpl.
    apply leb_not_ltb. apply (H b). simpl; auto.
  - destruct (Nat.le_gt_cases 2 (List.length rows)) as [L|L].
    + destruct (second_to_last_nth rows L) as (y & N & ->).
      apply leb_not_ltb. apply (H y). eapply nth_error_In; exact N.
    + unfold second_to_last_above_830.
      destruct (rev rows) as [|z [|y front]] eqn:R; try reflexivity.
      apply (f_equal (@List.length _)) in R. rewrite length_rev in R.
      simpl in R. lia.
Qed.

(** C9. On a row list whose wavelengths all lie in [360, 830] nm neither
    loop removes anything, so the normalizer returns the list unchanged,
    and applying it twice is the same as applying it once. *)
Theorem C9_in_range_untouched rows :
  (forall r, In r rows -> in_band r) ->
  trim_front rows = rows /\ trim_back rows = rows /\
  normalize rows = rows /\
  normalize (normalize rows) = normalize rows.
Proof.
  intros H. destruct (in_band_guards rows H) as [F B].
  assert (N : normalize rows = rows).
  { unfold normalize. rewrite (trim_front_fixed rows F).
    apply trim_back_fixed, B. }
  repeat split.
  - apply trim_front_fixed, F.
  - apply trim_back_fixed, B.
  - exact N.
  - rewrite N. exact N.
Qed.

Lemma C9_witness :
  let rows := [(360, 1.5); (500, 1.6); (830, 1.7)]%float in
  trim_front rows = rows /\ trim_back rows = rows /\
  normalize rows = rows /\
  normalize (normalize rows) = normalize rows.
Proof.
  apply (C9_in_range_untouched [(360, 1.5); (500, 1.6); (830, 1.7)]%float).
  intros r [<-|[<-|[<-|[]]]]; split; reflexivity.
Defined.

(** Which exception [parse] raises, in terms of its loop body. *)
Lemma parse_raises lines :
  (parse lines = Raise TypeError <-> blank lines) /\
  (parse lines = Raise ValueError <->
   Exists (fun line => line <> EmptyString /\
                       parse_line line = Raise ValueError)
     (splitlines lines)) /\
  (forall e, parse lines = Raise e -> e = TypeError \/ e = ValueError) /\
  (forall e table, parse lines = Raise e -> parse lines <> Ok table).
Proof.
  assert (V : forall e, parse_rows lines = Raise e <->
                        e = ValueError /\
                        Exists (fun line => line <> EmptyString /\
                                            parse_line line = Raise ValueError)
                          (splitlines lines))
    by (intros e; apply parse_lines_raises).
  pose proof (parse_rows_nil lines) as B.
  unfold parse. destruct (parse_rows lines) as [rows|e0] eqn:R; simpl.
  - assert (NV : ~ Exists (fun line => line <> EmptyString /\
                                       parse_line line = Raise ValueError)
                      (splitlines lines)).
    { intros M. discriminate (proj2 (V ValueError) (conj eq_refl M)). }
    assert (E : normalize rows = [] <-> blank lines).
    { rewrite normalize_nil, <- B. split; congruence. }
    destruct (Z.eqb_spec (Z.of_nat (List.length (normalize rows))) 0) as [Z|Z].
    + assert (N : normalize rows = [])
        by (destruct (normalize rows); [reflexivity | simpl in Z; lia]).
      split; [|split; [|split]].
      * split; [intros _; apply E, N | reflexivity].
      * split; [discriminate | intros M; destruct (NV M)].
      * intros e H. left. congruence.
      * discriminate.
    + assert (N : normalize rows <> [])
        by (intros N; rewrite N in Z; simpl in Z; lia).
      split; [|split; [|split]].
      * split; [discriminate | intros H; destruct (N (proj2 E H))].
      * split; [discriminate | intros M; destruct (NV M)].
      * discriminate.
      * discriminate.
  - destruct (proj1 (V e0) eq_refl) as [-> M].
    split; [|split; [|split]].
    + split; [discriminate | intros H; apply B in H; discriminate].
    + split; [intros _; exact M | reflexivity].
    + intros e H. right. congruence.
    + discriminate.
Qed.

(** C5, as stated, fails: a section whose only line uses a semicolon makes
    [parse] raise although that line is not empty. *)
Lemma C5_counterexample :
  (exists e, parse semicolon_row = Raise e) /\ ~ blank semicolon_row.
Proof.
  split.
  - exists ValueError. vm_compute. reflexivity.
  - intros B. vm_compute in B. inversion B; discriminate.
Qed.

(** C8. Run with an argument list that is not the program name and one
    path, either script prints its usage line and exits with status -1;
    it opens no file, for reading or for writing. *)
Theorem C8_usage_error argv w :
  List.length argv <> 2%nat ->
  RefractiveIndex.main argv w
    = ([Printed RefractiveIndex.usage], Exited (-1)) /\
  Mitsuba2.main argv w = ([Printed Mitsuba2.usage], Exited (-1)) /\
  existsb touches_file (fst (RefractiveIndex.main argv w)) = false /\
  existsb touches_file (fst (Mitsuba2.main argv w)) = false.
Proof.
  intros H. unfold RefractiveIndex.main, Mitsuba2.main.
  destruct (Z.eqb_spec (Z.of_nat (List.length argv)) 2) as [E|E]; [lia|].
  simpl. repeat split.
Qed.

Lemma C8_witness :
  RefractiveIndex.main ["importer.py"] empty_world
    = ([Printed RefractiveIndex.usage], Exited (-1)) /\
  Mitsuba2.main ["importer.py"] empty_world
    = ([Printed Mitsuba2.usage], Exited (-1)) /\
  existsb touches_file
    (fst (RefractiveIndex.main ["importer.py"] empty_world))
    = false /\
  existsb touches_file
    (fst (Mitsuba2.main ["importer.py"] empty_world)) = false.
Proof.
  apply (C8_usage_error ["importer.py"] empty_world).
  simpl. lia.
Defined.

End Claims.

(** ** The claims about the pipelines *)

Section Pipeline.
Import Py Json Sys RefractiveIndex Spec Examples.

Lemma load_sections data eta k :
  load data = Ok (eta, k) ->
  parse (eta_section data) = Ok eta /\
  match k with
  | Some t => exists s, k_section data = Some s /\ parse s = Ok t
  | None => k_section data = None
  end.
Proof.
  unfold load, eta_section, k_section.
  destruct (negb (find data "wl,k" =? -1)).
  - destruct (parse (slice _ _ _)) as [e1|] eqn:E1; simpl; [|discriminate].
    destruct (parse (slice_from _ _)) as [k1|] eqn:E2; simpl; [|discriminate].
    intros H. inversion H; subst. split; [reflexivity|].
    eexists. split; [reflexivity | exact E2].
  - destruct (parse (slice_from _ _)) as [e1|] eqn:E1; simpl; [|discriminate].
    intros H. inversion H; subst. split; reflexivity.
Qed.

Lemma convert_load data obj :
  convert data = Ok obj ->
  exists eta k, load data = Ok (eta, k) /\
                obj = build eta (drop_negligible k).
Proof.
  unfold convert. destruct (load data) as [[eta k]|]; simpl; [|discriminate].
  intros H. inversion H; subst. exists eta, k. split; reflexivity.
Qed.

Lemma parse_in_band s rows table :
  parse_rows s = Ok rows -> ascending rows -> parse s = Ok table ->
  table <> [] /\ interior_in_band table.
Proof.
  intros R A H. destruct (parse_inv _ _ H) as (rows' & R' & -> & N).
  rewrite R in R'. inversion R'; subst rows'.
  split; [exact N | apply normalize_interior, A].
Qed.

Lemma parse_rows_of_parse s table :
  parse s = Ok table -> exists rows, parse_rows s = Ok rows.
Proof.
  intros H. destruct (parse_inv _ _ H) as (rows & R & _). eauto.
Qed.

Lemma drop_negligible_some k t : drop_negligible k = Some t -> k = Some t.
Proof.
  destruct k as [k|]; simpl; [|discriminate].
  destruct (negligible k); [discriminate|]. auto.
Qed.

Lemma get_eta eta k :
  get "Eta" (build eta k) = Some (texture (tolist eta)).
Proof. reflexivity. Qed.

Lemma get_k eta k :
  get "K" (build eta k) =
  match k with
  | Some t => if 0 <? Z.of_nat (List.length t)
              then Some (texture (tolist t)) else None
  | None => None
  end.
Proof.
  destruct k as [t|]; [|reflexivity]. simpl.
  destruct (0 <? Z.of_nat (List.length t)); reflexivity.
Qed.

(** C1. For a CSV text whose parsed rows are sorted by ascending
    wavelength in each section, every table in the emitted object (the one
    under [Eta] and, when there is one, the one under [K]) has at least one
    sample, and all its samples except possibly the first and the last have
    a wavelength within [360, 830] nm. *)
Theorem C1_emitted_tables_in_band data obj :
  (forall rows, parse_rows (eta_section data) = Ok rows -> ascending rows) ->
  (forall s rows,
      k_section data = Some s -> parse_rows s = Ok rows -> ascending rows) ->
  convert data = Ok obj ->
  (exists eta,
      get "Eta" obj = Some (texture (tolist eta)) /\
      eta <> [] /\ interior_in_band eta) /\
  (forall entry,
      get "K" obj = Some entry ->
      exists k, entry = texture (tolist k) /\
                k <> [] /\ interior_in_band k).
Proof.
  intros Aeta Ak C.
  destruct (convert_load _ _ C) as (eta & k & L & ->).
  destruct (load_sections _ _ _ L) as [Peta Pk]. split.
  - exists eta. split; [apply get_eta|].
    destruct (parse_rows_of_parse _ _ Peta) as (rows & R).
    apply (parse_in_band (eta_section data) rows); auto.
  - intros entry G. rewrite get_k in G.
    destruct (drop_negligible k) as [t|] eqn:D; [|discriminate].
    destruct (0 <? Z.of_nat (List.length t)); [|discriminate].
    inversion G; subst entry. exists t. split; [reflexivity|].
    apply drop_negligible_some in D. subst k.
    destruct Pk as (s & S & Pt).
    destruct (parse_rows_of_parse _ _ Pt) as (rows & R).
    apply (parse_in_band s rows); auto. apply (Ak s); auto.
Qed.

Ltac ascending_rows :=
  repeat first [ apply ascending_nil | apply ascending_one
               | apply ascending_cons; [reflexivity|] ].

Lemma C1_witness :
  (exists eta,
      get "Eta" (build
        [(350, 1.5); (500, 1.6); (700, 1.7); (850, 1.8)]%float
        (Some [(350, 0.6); (500, 0.7); (900, 0.8)]%float))
      = Some (texture (tolist eta)) /\
      eta <> [] /\ interior_in_band eta) /\
  (forall entry,
      get "K" (build
        [(350, 1.5); (500, 1.6); (700, 1.7); (850, 1.8)]%float
        (Some [(350, 0.6); (500, 0.7); (900, 0.8)]%float))
      = Some entry ->
      exists k, entry = texture (tolist k) /\
                k <> [] /\ interior_in_band k).
Proof.
  apply (C1_emitted_tables_in_band wide).
  - intros rows H. vm_compute in H. inversion H; subst. ascending_rows.
  - intros s rows S H. vm_compute in S. inversion S; subst s.
    vm_compute in H. inversion H; subst. ascending_rows.
  - vm_compute. reflexivity.
Defined.

(** C7. Let [wl,n] first occur at offset [i].  If [wl,k] occurs nowhere,
    only the text after [wl,n] is parsed, as the real-index section, and
    an emitted object has the key [Eta] and no key [K].  If [wl,k] first
    occurs at offset [j], the real-index section is the text after [wl,n]
    up to [j] and the imaginary-index section the text after [wl,k]. *)
Theorem C7_sections data i :
  first_at data "wl,n" i ->
  (absent data "wl,k" ->
     load data
       = (eta <- parse (drop (i + 4) data) ;; Ok (eta, None)) /\
     forall obj, convert data = Ok obj ->
                 has_key "Eta" obj = true /\ has_key "K" obj = false) /\
  (forall j, first_at data "wl,k" j ->
     load data
       = (eta <- parse (between data (i + 4) j) ;;
          k <- parse (drop (j + 4) data) ;;
          Ok (eta, Some k))).
Proof.
  intros Fn. pose proof (find_first _ _ _ Fn) as En. split.
  - intros A. apply find_absent in A.
    assert (L : load data
                = (eta <- parse (drop (i + 4) data) ;; Ok (eta, None))).
    { unfold load. rewrite A, En. simpl negb. cbv iota.
      replace (Z.of_nat i + 4) with (Z.of_nat (i + 4)) by lia.
      rewrite slice_from_drop. reflexivity. }
    split; [exact L|].
    intros obj C. unfold convert in C. rewrite L in C.
    destruct (parse (drop (i + 4) data)) as [eta|]; simpl in C;
      [|discriminate].
    inversion C; subst. split; reflexivity.
  - intros j Fk. pose proof (find_first _ _ _ Fk) as Ek.
    unfold load. rewrite Ek, En.
    replace (negb (Z.of_nat j =? -1)) with true
      by (symmetry; apply negb_true_iff, Z.eqb_neq; lia).
    replace (Z.of_nat i + 4) with (Z.of_nat (i + 4)) by lia.
    replace (Z.of_nat j + 4) with (Z.of_nat (j + 4)) by lia.
    rewrite slice_between, slice_from_drop. reflexivity.
Qed.

Lemma C7_witness :
  (absent eta_only "wl,k" ->
     load eta_only
       = (eta <- parse (drop (0 + 4) eta_only) ;; Ok (eta, None)) /\
     forall obj, convert eta_only = Ok obj ->
                 has_key "Eta" obj = true /\ has_key "K" obj = false) /\
  (forall j, first_at eta_only "wl,k" j ->
     load eta_only
       = (eta <- parse (between eta_only (0 + 4) j) ;;
          k <- parse (drop (j + 4) eta_only) ;;
          Ok (eta, Some k))).
Proof.
  apply (C7_sections eta_only 0). split.
  - split; [vm_compute; lia | reflexivity].
  - intros j Hj. lia.
Defined.

Lemma magnitude_negligible k :
  all_below_in_magnitude k = true -> negligible k = true.
Proof.
  unfold all_below_in_magnitude, negligible. rewrite !forallb_forall.
  intros H r Hr. apply abs_ltb, H, Hr.
Qed.

Lemma load_with_marker data :
  ~ absent data "wl,k" ->
  load data
    = (eta <- parse (eta_section data) ;;
       k <- parse (slice_from data (find data "wl,k" + 4)) ;;
       Ok (eta, Some k)) /\
  k_section data = Some (slice_from data (find data "wl,k" + 4)).
Proof.
  intros P. rewrite find_absent in P.
  unfold load, eta_section, k_section.
  replace (negb (find data "wl,k" =? -1)) with true
    by (symmetry; apply negb_true_iff, Z.eqb_neq; exact P).
  split; reflexivity.
Qed.

Lemma has_key_k eta k :
  k <> [] -> has_key "K" (build eta (drop_negligible (Some k)))
             = negb (negligible k).
Proof.
  intros N. simpl. destruct (negligible k); [reflexivity|].
  destruct k as [|r k]; [congruence|]. reflexivity.
Qed.

(** C4, as stated, fails: with the extinction values -5.0 the parsed
    table has rows, its values are not below 1e-3 in magnitude, and yet
    the emitted object has no key [K]. *)
Lemma C4_counterexample :
  exists eta k obj,
    load negative_k = Ok (eta, Some k) /\
    convert negative_k = Ok obj /\
    k <> [] /\ all_below_in_magnitude k = false /\
    has_key "K" obj = false.
Proof.
  exists [(400, 1.5); (500, 1.6)]%float, [(400, -5); (500, -5)]%float.
  eexists. split; [vm_compute; reflexivity|].
  split; [vm_compute; reflexivity|].
  split; [discriminate|]. split; vm_compute; reflexivity.
Qed.

(** C10. The negligibility test compares the values themselves, not their
    magnitudes: whenever every value of the parsed imaginary-index table
    is below 1e-3, however far below zero, the emitted object has the key
    [Eta] and no key [K]. *)
Theorem C10_signed_comparison data eta k :
  load data = Ok (eta, Some k) ->
  (forall r, In r k -> (value r <? 1e-3)%float = true) ->
  convert data = Ok (build eta None) /\
  has_key "Eta" (build eta None) = true /\
  has_key "K" (build eta None) = false.
Proof.
  intros L H. unfold convert. rewrite L. simpl.
  replace (negligible k) with true
    by (symmetry; apply forallb_forall; exact H).
  repeat split.
Qed.

Lemma C10_witness :
  convert negative_k = Ok (build [(400, 1.5); (500, 1.6)]%float None) /\
  has_key "Eta" (build [(400, 1.5); (500, 1.6)]%float None) = true /\
  has_key "K" (build [(400, 1.5); (500, 1.6)]%float None) = false.
Proof.
  apply (C10_signed_comparison negative_k
           [(400, 1.5); (500, 1.6)]%float [(400, -5); (500, -5)]%float).
  - vm_compute. reflexivity.
  - intros r [<-|[<-|[]]]; reflexivity.
Defined.

(** C3, evaluated.  With one row in each of [copper.eta.spd] and
    [copper.k.spd], [loadtxt] returns one-dimensional arrays, so the
    object written to [ior/copper.json] has the flat arrays [[400.0, 1.1]]
    and [[400.0, 2.3]] as its [Array] values; it is not the object of
    nested pairs. *)
Theorem C3_one_row_tables_are_flat :
  Mitsuba2.convert "400 1.1" "400 2.3" = Ok copper_flat /\
  Mitsuba2.main ["mitsuba2toPiper0.py"; "mitsuba2"] copper_world
    = ([Printed "Generating copper";
        Read "mitsuba2/resources/data/ior/copper.eta.spd";
        Read "mitsuba2/resources/data/ior/copper.k.spd";
        Dump "ior/copper.json" copper_flat],
       Finished) /\
  copper_flat <> copper_nested.
Proof.
  split; [vm_compute; reflexivity|].
  split; [vm_compute; reflexivity|].
  unfold copper_flat, copper_nested. intros H. inversion H.
Qed.

End Pipeline.

(** ** Further remarks and worked examples *)

Section Remarks.
Import Py Json Sys RefractiveIndex Spec Examples FloatOrder.

(** Values below zero are negligible for the test of line 77, whatever
    their magnitude. *)
Lemma negative_values_negligible k :
  (forall r, In r k -> (value r <? 0)%float = true) -> negligible k = true.
Proof.
  intros H. apply forallb_forall. intros r Hr.
  apply (ltb_leb_trans _ 0%float); [apply H, Hr | reflexivity].
Qed.

(** Without [wl,n] in the text, [find] gives [-1] and the section parsed
    starts at offset 3, whatever stands there. *)
Lemma load_without_markers data :
  absent data "wl,n" -> absent data "wl,k" ->
  load data = (eta <- parse (drop 3 data) ;; Ok (eta, None)).
Proof.
  intros An Ak. apply find_absent in An. apply find_absent in Ak.
  unfold load. rewrite An, Ak. simpl negb. cbv iota.
  change (-1 + 4) with (Z.of_nat 3). rewrite slice_from_drop. reflexivity.
Qed.

(** The file of the specification's example: the 300 nm and 900 nm
    samples stay, since the samples next to them are inside the band. *)
Example eta_only_converted :
  convert eta_only
  = Ok (build [(300, 1.5); (400, 1.6); (900, 1.4)]%float None).
Proof. vm_compute. reflexivity. Qed.

(** A file with both sections, trimmed on both sides. *)
Example wide_converted :
  convert wide
  = Ok (build [(350, 1.5); (500, 1.6); (700, 1.7); (850, 1.8)]%float
              (Some [(350, 0.6); (500, 0.7); (900, 0.8)]%float)).
Proof. vm_compute. reflexivity. Qed.

End Remarks.

(** ** The directory scanners *)

Section Scanning.
Import Py Json Sys Spec Examples Runs.

Lemma length_app_string a b :
  String.length (a ++ b) = (String.length a + String.length b)%nat.
Proof. induction a as [|c a IH]; simpl; auto. Qed.

Lemma take_drop k s : take k s ++ drop k s = s.
Proof.
  revert s. induction k as [|k IH]; intros [|c s]; simpl; auto.
  f_equal. apply IH.
Qed.

Lemma drop_app a b : drop (String.length a) (a ++ b) = b.
Proof. induction a as [|c a IH]; simpl; auto. Qed.

Lemma take_app a b : take (String.length a) (a ++ b) = a.
Proof.
  induction a as [|c a IH]; simpl; [destruct b; reflexivity|].
  f_equal. exact IH.
Qed.

(** [endswith] holds exactly of the texts that are something followed by
    the suffix. *)
Lemma endswith_iff s suffix :
  endswith s suffix = true <-> exists stem, s = stem ++ suffix.
Proof.
  unfold endswith. split.
  - intros H. apply andb_prop in H as [L E].
    apply String.eqb_eq in E.
    exists (take (String.length s - String.length suffix) s).
    pose proof (take_drop (String.length s - String.length suffix) s) as T.
    rewrite E in T. symmetry. exact T.
  - intros [stem ->]. rewrite length_app_string.
    replace (String.length stem + String.length suffix
             - String.length suffix)%nat
      with (String.length stem) by lia.
    rewrite drop_app, String.eqb_refl.
    replace (String.length suffix
             <=? String.length stem + String.length suffix)%nat
      with true by (symmetry; apply Nat.leb_le; lia).
    reflexivity.
Qed.

Lemma removesuffix_app stem suffix : removesuffix (stem ++ suffix) suffix = stem.
Proof.
  unfold removesuffix.
  replace (endswith (stem ++ suffix) suffix) with true
    by (symmetry; apply endswith_iff; eauto).
  rewrite length_app_string.
  replace (String.length stem + String.length suffix
           - String.length suffix)%nat
    with (String.length stem) by lia.
  apply take_app.
Qed.

(** X1. The CSV importer converts exactly the files that [os.walk] lists
    with a name ending in [.csv]: the material is named by what stands
    before that suffix and read from [root/name.csv]. *)
Theorem csv_materials_are_the_csv_files w path name file :
  In (name, file) (RefractiveIndex.materials w path) <->
  exists r ds fs,
    In (r, ds, fs) (walk w path) /\ In (name ++ ".csv") fs /\
    file = r ++ "/" ++ name ++ ".csv".
Proof.
  unfold RefractiveIndex.materials. rewrite in_flat_map. split.
  - intros ([[r ds] fs] & Hw & Hin). apply in_flat_map in Hin as (f & Hf & Hm).
    destruct (endswith f ".csv") eqn:E; [|destruct Hm].
    apply endswith_iff in E as [stem ->].
    rewrite removesuffix_app in Hm. destruct Hm as [Hm|[]].
    inversion Hm; subst. exists r, ds, fs. auto.
  - intros (r & ds & fs & Hw & Hf & ->). exists (r, ds, fs).
    split; [exact Hw|]. apply in_flat_map. exists (name ++ ".csv").
    split; [exact Hf|].
    replace (endswith (name ++ ".csv") ".csv") with true
      by (symmetry; apply endswith_iff; eauto).
    rewrite removesuffix_app. left. reflexivity.
Qed.

Lemma replace_from_skip k s old new :
  replace_from k s old new = replace_from 0 (drop k s) old new.
Proof.
  revert s. induction k as [|k IH]; intros [|c s]; simpl; auto.
Qed.

(** Up to the first occurrence of [old] the text is kept, the occurrence
    becomes [new], and the replacement goes on after it. *)
Lemma replace_first s old new n :
  old <> EmptyString -> first_at s old n ->
  replace s old new
  = take n s ++ new ++ replace (drop (n + String.length old) s) old new.
Proof.
  intros Hold. unfold replace. revert s.
  induction n as [|n IH]; intros s [O M].
  - apply occurs_at_here in O.
    destruct s as [|c s].
    + destruct old; [congruence | discriminate].
    + cbn [replace_from take]. rewrite O. rewrite replace_from_skip.
      destruct old as [|o old]; [congruence|]. simpl. 
      rewrite Nat.sub_0_r. reflexivity.
  - destruct s as [|c s]; [destruct O as [O _]; simpl in O; lia|].
    assert (N : startswith (String c s) old = false).
    { destruct (startswith (String c s) old) eqn:E; [|reflexivity].
      exfalso. apply (M 0%nat); [lia|]. apply occurs_at_here. exact E. }
    cbn [replace_from]. rewrite N. cbn [take drop Nat.add]. simpl append.
    f_equal. apply IH. split.
    + apply (occurs_at_next c). exact O.
    + intros j Hj Hocc. apply (M (S j)); [lia|].
      apply occurs_at_next. exact Hocc.
Qed.

(** X2. The Mitsuba2 importer converts exactly the files that [os.walk]
    lists with a name ending in [.eta.spd]; the material is named by what
    stands before that suffix, and its K file is the file name with every
    [.eta.spd] replaced by [.k.spd], in the same directory. *)
Theorem spd_materials_are_the_eta_files w path name eta k :
  In (name, eta, k) (Mitsuba2.materials w path) <->
  exists r ds fs,
    In (r, ds, fs) (walk w path) /\ In (name ++ ".eta.spd") fs /\
    eta = r ++ "/" ++ name ++ ".eta.spd" /\
    k = r ++ "/" ++ replace (name ++ ".eta.spd") ".eta.spd" ".k.spd".
Proof.
  unfold Mitsuba2.materials. rewrite in_flat_map. split.
  - intros ([[r ds] fs] & Hw & Hin). apply in_flat_map in Hin as (f & Hf & Hm).
    destruct (endswith f ".eta.spd") eqn:E; [|destruct Hm].
    apply endswith_iff in E as [stem ->].
    rewrite removesuffix_app in Hm. destruct Hm as [Hm|[]].
    inversion Hm; subst. exists r, ds, fs. auto.
  - intros (r & ds & fs & Hw & Hf & -> & ->). exists (r, ds, fs).
    split; [exact Hw|]. apply in_flat_map. exists (name ++ ".eta.spd").
    split; [exact Hf|].
    replace (endswith (name ++ ".eta.spd") ".eta.spd") with true
      by (symmetry; apply endswith_iff; eauto).
    rewrite removesuffix_app. left. reflexivity.
Qed.

(** X3. When the suffix is the first place where [.eta.spd] occurs in the
    file name, the K file of the material is its sibling [name.k.spd]. *)
Theorem k_file_is_the_sibling name :
  first_at (name ++ ".eta.spd") ".eta.spd" (String.length name) ->
  replace (name ++ ".eta.spd") ".eta.spd" ".k.spd" = name ++ ".k.spd".
Proof.
  intros F.
  assert (N : ".eta.spd" <> EmptyString) by discriminate.
  rewrite (replace_first _ _ ".k.spd" _ N F).
  rewrite take_app.
  replace (String.length name + String.length ".eta.spd")%nat
    with (String.length (name ++ ".eta.spd"))
    by (rewrite length_app_string; reflexivity).
  rewrite drop_all by lia. reflexivity.
Qed.

Lemma k_file_is_the_sibling_witness :
  replace ("copper" ++ ".eta.spd") ".eta.spd" ".k.spd" = "copper" ++ ".k.spd".
Proof.
  apply (k_file_is_the_sibling "copper"). split.
  - split; [vm_compute; lia | reflexivity].
  - intros j Hj [_ H]. simpl in Hj.
    do 6 (destruct j as [|j]; [vm_compute in H; discriminate|]). lia.
Defined.

End Scanning.

(** ** Runs over several materials *)

Section Running.
Import Py Json Sys Spec Examples Runs.

(** X4. A run of the CSV importer over a list of materials is the run
    over its first part followed, only if that one finished, by the run
    over the rest: once a material fails nothing is printed, read or
    written for the materials after it, and what was written before
    stays. *)
Theorem csv_run_stops_at_first_failure w ms1 ms2 :
  RefractiveIndex.generate w (ms1 ++ ms2) =
  match RefractiveIndex.generate w ms1 with
  | (events, Finished) =>
      let (later, out) := RefractiveIndex.generate w ms2 in
      ((events ++ later)%list, out)
  | stopped => stopped
  end.
Proof.
  induction ms1 as [|[name eta] ms1 IH]; simpl.
  - destruct (RefractiveIndex.generate w ms2). reflexivity.
  - destruct (read_text w eta) as [data|]; [|reflexivity].
    destruct (RefractiveIndex.convert data) as [obj|e]; [|reflexivity].
    rewrite IH.
    destruct (RefractiveIndex.generate w ms1) as [events [| |]];
      try reflexivity.
    destruct (RefractiveIndex.generate w ms2) as [later out]. reflexivity.
Qed.

(** X5. The same holds of the Mitsuba2 importer, whose materials fail
    when either of their two files cannot be opened or parsed. *)
Theorem spd_run_stops_at_first_failure w ms1 ms2 :
  Mitsuba2.generate w (ms1 ++ ms2) =
  match Mitsuba2.generate w ms1 with
  | (events, Finished) =>
      let (later, out) := Mitsuba2.generate w ms2 in
      ((events ++ later)%list, out)
  | stopped => stopped
  end.
Proof.
  induction ms1 as [|[[name eta] k] ms1 IH]; simpl.
  - destruct (Mitsuba2.generate w ms2). reflexivity.
  - destruct (read_text w eta) as [eta_text|]; [|reflexivity].
    destruct (Mitsuba2.loadtxt eta_text) as [eta_arr|e]; [|reflexivity].
    destruct (read_text w k) as [k_text|]; [|reflexivity].
    destruct (Mitsuba2.loadtxt k_text) as [k_arr|e]; [|reflexivity].
    rewrite IH.
    destruct (Mitsuba2.generate w ms1) as [events [| |]]; try reflexivity.
    destruct (Mitsuba2.generate w ms2) as [later out]. reflexivity.
Qed.

(** X6. The files a run of the CSV importer writes are [ior/name.json]
    for the materials that come before the first one whose file cannot
    be read or converted, in order; the run finishes exactly when there
    is no such material. *)
Theorem csv_run_writes_one_file_per_material w ms :
  dumped_paths (fst (RefractiveIndex.generate w ms))
    = map (fun m => output_path (fst m)) (take_while (converts w) ms) /\
  (snd (RefractiveIndex.generate w ms) = Finished
   <-> forallb (converts w) ms = true).
Proof.
  induction ms as [|[name eta] ms [IHp IHf]]; simpl.
  - split; [reflexivity | split; reflexivity].
  - unfold converts at 1 3. simpl.
    destruct (read_text w eta) as [data|]; simpl;
      [|split; [reflexivity | split; discriminate]].
    destruct (RefractiveIndex.convert data) as [obj|e]; simpl;
      [|split; [reflexivity | split; discriminate]].
    destruct (RefractiveIndex.generate w ms) as [later out]. simpl in *.
    split; [f_equal; exact IHp | exact IHf].
Qed.

Lemma csv_generate_never_exits w ms s :
  snd (RefractiveIndex.generate w ms) <> Exited s.
Proof.
  induction ms as [|[name eta] ms IH]; simpl; [discriminate|].
  destruct (read_text w eta) as [data|]; [|discriminate].
  destruct (RefractiveIndex.convert data) as [obj|e]; [|discriminate].
  destruct (RefractiveIndex.generate w ms) as [later out]. exact IH.
Qed.

Lemma spd_generate_never_exits w ms s :
  snd (Mitsuba2.generate w ms) <> Exited s.
Proof.
  induction ms as [|[[name eta] k] ms IH]; simpl; [discriminate|].
  destruct (read_text w eta) as [eta_text|]; [|discriminate].
  destruct (Mitsuba2.loadtxt eta_text) as [eta_arr|e]; [|discriminate].
  destruct (read_text w k) as [k_text|]; [|discriminate].
  destruct (Mitsuba2.loadtxt k_text) as [k_arr|e]; [|discriminate].
  destruct (Mitsuba2.generate w ms) as [later out]. exact IH.
Qed.

(** X7. Either script exits through [exit] only for a wrong argument
    count, and then with status -1: with the program name and one path it
    runs to the end or stops on an uncaught exception. *)
Theorem exit_only_on_usage_error argv w status :
  (snd (RefractiveIndex.main argv w) = Exited status
   <-> List.length argv <> 2%nat /\ status = -1) /\
  (snd (Mitsuba2.main argv w) = Exited status
   <-> List.length argv <> 2%nat /\ status = -1).
Proof.
  unfold RefractiveIndex.main, Mitsuba2.main.
  destruct (Z.eqb_spec (Z.of_nat (List.length argv)) 2) as [E|E]; simpl.
  - split; (split; [intros H | intros [H _]; lia]).
    + destruct (csv_generate_never_exits _ _ _ H).
    + destruct (spd_generate_never_exits _ _ _ H).
  - split; (split; [intros H; inversion H; split; [lia | reflexivity]
                   | intros [_ ->]; reflexivity]).
Qed.

End Running.

(** ** What the trimming loops discard *)

Section Discarding.
Import Py Json Sys RefractiveIndex Spec Examples Runs FloatOrder.

Lemma leb_ltb_trans x y z :
  (x <=? y)%float = true -> (y <? z)%float = true -> (x <? z)%float = true.
Proof.
  rewrite !ltb_rank, leb_rank. intros (Nx & Ny & Hxy) (_ & Nz & Hyz).
  repeat split; auto.
  pose proof (lex_spec (rank (Prim2SF x)) (rank (Prim2SF y))) as L1.
  pose proof (lex_spec (rank (Prim2SF y)) (rank (Prim2SF z))) as L2.
  pose proof (lex_spec (rank (Prim2SF x)) (rank (Prim2SF z))) as L3.
  destruct (rank (Prim2SF x)) as [[a1 a2] a3].
  destruct (rank (Prim2SF y)) as [[b1 b2] b3].
  destruct (rank (Prim2SF z)) as [[c1 c2] c3].
  rewrite Hyz in L2.
  destruct (lex (a1, a2, a3) (b1, b2, b3)); try congruence;
    destruct (lex (a1, a2, a3) (c1, c2, c3)); try reflexivity;
    try (inversion L1; subst); try (inversion L3; subst); lia.
Qed.

Lemma trim_front_discards res :
  ascending res ->
  exists front, res = (front ++ trim_front res)%list /\
                Forall below_band front.
Proof.
  funelim (trim_front res); intros A.
  - pose proof G as G'. rewrite front_guard_spec in G'.
    destruct res as [|a [|b rest]]; try discriminate. simpl in G'.
    destruct (H (ascending_pop_first _ A)) as (front & E & B).
    exists (a :: front). split.
    + simpl in E. simpl. f_equal. exact E.
    + constructor; [|exact B]. unfold below_band.
      apply (leb_ltb_trans _ (wavelength b)); [|exact G'].
      inversion A; assumption.
  - exists []. split; [reflexivity | constructor].
Qed.

Lemma ascending_last_two front y z :
  ascending (front ++ [y; z])%list -> wavelength_le y z.
Proof.
  induction front as [|a front IH]; simpl; intros A.
  - inversion A; assumption.
  - apply IH. eapply ascending_tail. exact A.
Qed.

Lemma trim_back_discards res :
  ascending res ->
  exists back, res = (trim_back res ++ back)%list /\
               Forall above_band back.
Proof.
  funelim (trim_back res); intros A.
  - pose proof G as G'. rewrite back_guard_spec in G'.
    unfold second_to_last_above_830 in G'.
    destruct (rev res) as [|z [|y front]] eqn:R; try discriminate.
    assert (E : res = (rev front ++ [y; z])%list).
    { rewrite <- (rev_involutive res), R. simpl.
      rewrite <- app_assoc. reflexivity. }
    destruct (H (ascending_pop_last _ A)) as (back & Eb & B).
    assert (P : pop_last res = (rev front ++ [y])%list).
    { unfold pop_last. rewrite E.
      replace (rev front ++ [y; z])%list with ((rev front ++ [y]) ++ [z])%list
        by (rewrite <- app_assoc; reflexivity).
      apply removelast_last. }
    exists (back ++ [z])%list. split.
    + rewrite app_assoc, <- Eb, P, <- app_assoc. exact E.
    + apply Forall_app. split; [exact B|]. constructor; [|constructor].
      unfold above_band. apply (ltb_leb_trans _ (wavelength y)); [exact G'|].
      rewrite E in A. apply (ascending_last_two _ _ _ A).
  - exists []. split; [symmetry; apply app_nil_r | constructor].
Qed.

(** X8. On rows sorted by ascending wavelength the normalizer removes a
    run of samples at the front, all below 360 nm, and a run at the back,
    all above 830 nm, and nothing else: no sample inside the band is ever
    discarded, and those kept stay in order. *)
Theorem normalizer_discards_only_out_of_band rows :
  ascending rows ->
  exists front back,
    rows = (front ++ normalize rows ++ back)%list /\
    Forall (fun r => (wavelength r <? 360)%float = true) front /\
    Forall (fun r => (830 <? wavelength r)%float = true) back.
Proof.
  intros A. unfold normalize.
  destruct (trim_front_discards rows A) as (front & Ef & Bf).
  destruct (trim_back_discards (trim_front rows)
              (ascending_trim_front _ A)) as (back & Eb & Bb).
  exists front, back. split; [|split; assumption].
  rewrite <- Eb. exact Ef.
Qed.

Lemma normalizer_discards_only_out_of_band_witness :
  exists front back,
    [(200, 1.3); (300, 1.4); (350, 1.5); (500, 1.6); (900, 1.9);
     (1000, 2)]%float
    = (front
       ++ normalize [(200, 1.3); (300, 1.4); (350, 1.5); (500, 1.6);
                     (900, 1.9); (1000, 2)]%float
       ++ back)%list /\
    Forall (fun r => (wavelength r <? 360)%float = true) front /\
    Forall (fun r => (830 <? wavelength r)%float = true) back.
Proof.
  apply (normalizer_discards_only_out_of_band
           [(200, 1.3); (300, 1.4); (350, 1.5); (500, 1.6); (900, 1.9);
            (1000, 2)]%float).
  repeat first [ apply ascending_nil | apply ascending_one
               | apply ascending_cons; [reflexivity|] ].
Defined.

Lemma trim_front_step res :
  front_guard res = true -> trim_front res = trim_front (pop_first res).
Proof. funelim (trim_front res); intros G'; [reflexivity | congruence]. Qed.

Lemma trim_back_step res :
  back_guard res = true -> trim_back res = trim_back (pop_last res).
Proof. funelim (trim_back res); intros G'; [reflexivity | congruence]. Qed.

Lemma last_cons (b a : sample) rows : last (b :: rows) a = last rows b.
Proof.
  revert a b. induction rows as [|c rows IH]; intros a b; [reflexivity|].
  change (last (b :: c :: rows) a) with (last (c :: rows) a).
  rewrite (IH a c), (IH b c). reflexivity.
Qed.

Lemma trim_front_all_below a rows :
  Forall below_band rows -> trim_front (a :: rows) = [last rows a].
Proof.
  revert a. induction rows as [|b rows IH]; intros a B.
  - apply trim_front_fixed. reflexivity.
  - rewrite trim_front_step.
    + unfold pop_first. simpl tl. rewrite IH by (inversion B; assumption).
      rewrite last_cons. reflexivity.
    + rewrite front_guard_spec. simpl. inversion B; assumption.
Qed.

(** X9. Rows that all lie below 360 nm are cut down to their last sample
    alone: the table that is returned, and emitted, then has a single
    sample, and that sample is outside the band. *)
Theorem rows_below_band_leave_the_last a rows :
  Forall (fun r => (wavelength r <? 360)%float = true) rows ->
  normalize (a :: rows) = [last rows a].
Proof.
  intros B. unfold normalize. rewrite (trim_front_all_below a rows B).
  apply trim_back_fixed. reflexivity.
Qed.

Lemma rows_below_band_leave_the_last_witness :
  normalize [(200, 1.3); (300, 1.4); (350, 1.5)]%float
  = [last [(300, 1.4); (350, 1.5)]%float (200, 1.3)%float].
Proof.
  apply (rows_below_band_leave_the_last (200, 1.3)%float
           [(300, 1.4); (350, 1.5)]%float).
  repeat constructor.
Defined.

Lemma above_band_not_below r : above_band r -> (wavelength r <? 360)%float = false.
Proof.
  unfold above_band. intros H. apply leb_not_ltb, ltb_leb.
  apply (leb_ltb_trans _ 830%float); [reflexivity | exact H].
Qed.

Lemma trim_back_all_above n : forall a rows,
  List.length rows = n -> Forall above_band (a :: rows) ->
  trim_back (a :: rows) = [a].
Proof.
  induction n as [|n IH]; intros a rows L B.
  - destruct rows; [|discriminate]. apply trim_back_fixed. reflexivity.
  - assert (L2 : (2 <= List.length (a :: rows))%nat) by (simpl; lia).
    destruct (second_to_last_nth _ L2) as (y & Ny & Ey).
    rewrite trim_back_step.
    + unfold pop_last.
      destruct rows as [|b rows] using rev_ind; [discriminate|].
      replace (a :: rows ++ [b])%list with ((a :: rows) ++ [b])%list
        by reflexivity.
      rewrite removelast_last. apply IH.
      * rewrite length_app in L. simpl in L. lia.
      * change (a :: rows ++ [b])%list with ((a :: rows) ++ [b])%list in B.
        apply Forall_app in B. tauto.
    + rewrite back_guard_spec, Ey.
      rewrite Forall_forall in B. apply B. eapply nth_error_In. exact Ny.
Qed.

(** X10. Rows that all lie above 830 nm are cut down to their first
    sample alone. *)
Theorem rows_above_band_leave_the_first a rows :
  Forall (fun r => (830 <? wavelength r)%float = true) (a :: rows) ->
  normalize (a :: rows) = [a].
Proof.
  intros B. unfold normalize.
  rewrite trim_front_fixed.
  - apply (trim_back_all_above (List.length rows)); auto.
  - rewrite front_guard_spec. destruct rows as [|b rows]; [reflexivity|].
    simpl. apply above_band_not_below. inversion B as [|? ? _ B'].
    inversion B'; assumption.
Qed.

Lemma rows_above_band_leave_the_first_witness :
  normalize [(900, 1.9); (1000, 2); (1100, 2.1)]%float = [(900, 1.9)%float].
Proof.
  apply (rows_above_band_leave_the_first (900, 1.9)%float
           [(1000, 2); (1100, 2.1)]%float).
  repeat constructor.
Defined.

End Discarding.

(** ** Rows, sections and the shape of the output *)

Section Shapes.
Import Py Json Sys RefractiveIndex Spec Examples Runs.

Lemma parse_lines_rows res lines out :
  parse_lines res lines = Ok out <->
  exists rows,
    out = (res ++ rows)%list /\
    Forall2 (fun line r => parse_line line = Ok r)
      (filter (fun line => negb (len line =? 0)) lines) rows.
Proof.
  revert res out. induction lines as [|line rest IH]; intros res out; simpl.
  - split.
    + intros H. inversion H; subst. exists []. rewrite app_nil_r.
      split; [reflexivity | constructor].
    + intros (rows & -> & F). inversion F; subst.
      rewrite app_nil_r. reflexivity.
  - destruct (len line =? 0); simpl; [apply IH|].
    destruct (parse_line line) as [r|e] eqn:P; simpl.
    + rewrite IH. split.
      * intros (rows & -> & F). exists (r :: rows).
        rewrite <- app_assoc. split; [reflexivity|].
        constructor; assumption.
      * intros (rows & -> & F). inversion F as [|? r' ? rows' P' F']; subst.
        rewrite P in P'. inversion P'; subst r'. exists rows'.
        rewrite <- app_assoc. split; [reflexivity | exact F'].
    + split; [discriminate|].
      intros (rows & _ & F). inversion F as [|? r' ? rows' P' F']; subst.
      congruence.
Qed.

(** X11. The rows [parse] builds are, in order, one for each line of the
    section that is not empty, blank lines being skipped wherever they
    stand: the row of a line holds its first field times 1000 and its
    second field. *)
Theorem rows_follow_the_lines lines rows :
  parse_rows lines = Ok rows <->
  Forall2 (fun line r => parse_line line = Ok r)
    (filter (fun line => negb (len line =? 0)) (splitlines lines)) rows.
Proof.
  unfold parse_rows. rewrite parse_lines_rows. simpl. split.
  - intros (rows' & -> & F). exact F.
  - intros F. exists rows. split; [reflexivity | exact F].
Qed.

(** X12. A file in which [wl,k] first stands before [wl,n] is not
    converted: the real-index section is then the empty text, and [parse]
    raises on it before the imaginary-index section is looked at. *)
Theorem k_marker_before_n_marker data i j :
  first_at data "wl,n" i -> first_at data "wl,k" j -> (j < i)%nat ->
  convert data = Raise TypeError.
Proof.
  intros Fn Fk Hji.
  pose proof (find_first _ _ _ Fn) as En.
  pose proof (find_first _ _ _ Fk) as Ek.
  unfold convert, load. rewrite Ek, En.
  replace (negb (Z.of_nat j =? -1)) with true
    by (symmetry; apply negb_true_iff, Z.eqb_neq; lia).
  replace (Z.of_nat i + 4) with (Z.of_nat (i + 4)) by lia.
  rewrite slice_between. unfold between.
  replace (j - (i + 4))%nat with 0%nat by lia.
  reflexivity.
Qed.

Lemma k_marker_before_n_marker_witness :
  convert (text ["wl,k"; "0.4,0.5"; "wl,n"; "0.4,1.5"]) = Raise TypeError.
Proof.
  apply (k_marker_before_n_marker
           (text ["wl,k"; "0.4,0.5"; "wl,n"; "0.4,1.5"]) 13 0).
  - split; [split; [vm_compute; lia | reflexivity]|].
    intros j Hj [_ H].
    do 13 (destruct j as [|j]; [vm_compute in H; discriminate|]). lia.
  - split; [split; [vm_compute; lia | reflexivity]|]. intros j Hj. lia.
  - lia.
Defined.

Lemma tolist_pairs t :
  exists items, tolist t = JArray items /\
                (t <> [] -> items <> []) /\ Forall is_pair items.
Proof.
  unfold tolist. eexists. split; [reflexivity|]. split.
  - destruct t; [congruence | discriminate].
  - apply Forall_forall. intros j Hj. apply in_map_iff in Hj as (r & <- & _).
    exists (wavelength r), (value r). reflexivity.
Qed.

(** X13. Every member of an object the CSV importer emits is named [Eta]
    or [K], and its [Array] is a non-empty list of arrays of exactly two
    numbers, also when the table has a single row. *)
Theorem csv_arrays_are_lists_of_pairs data obj :
  convert data = Ok obj ->
  exists members,
    obj = JObject members /\
    Forall (fun member =>
              (fst member = "Eta" \/ fst member = "K") /\
              exists items,
                snd member = texture (JArray items) /\
                items <> [] /\ Forall is_pair items)
           members.
Proof.
  intros C. unfold convert in C.
  destruct (load data) as [[eta k]|] eqn:L; simpl in C; [|discriminate].
  inversion C; subst obj. clear C.
  assert (Peta : parse (eta_section data) = Ok eta /\
                 match k with
                 | Some t => exists s, k_section data = Some s /\ parse s = Ok t
                 | None => k_section data = None
                 end).
  { revert L. unfold load, eta_section, k_section.
    destruct (negb (find data "wl,k" =? -1)).
    - destruct (parse (slice _ _ _)) as [e1|] eqn:E1; simpl; [|discriminate].
      destruct (parse (slice_from _ _)) as [k1|] eqn:E2; simpl;
        [|discriminate].
      intros H. inversion H; subst. split; [reflexivity|]. eauto.
    - destruct (parse (slice_from _ _)) as [e1|] eqn:E1; simpl;
        [|discriminate].
      intros H. inversion H; subst. split; reflexivity. }
  destruct Peta as [Peta Pk].
  destruct (parse_inv _ _ Peta) as (_ & _ & _ & Neta).
  destruct (tolist_pairs eta) as (ie & Ee & Ne & Fe).
  unfold build. eexists. split; [reflexivity|].
  constructor.
  - split; [left; reflexivity|]. exists ie. simpl. rewrite Ee. auto.
  - destruct (drop_negligible k) as [t|] eqn:D; [|constructor].
    destruct k as [k|]; [|discriminate]. simpl in D.
    destruct (negligible k); [discriminate|]. inversion D; subst t.
    destruct Pk as (s & _ & Pk).
    destruct (parse_inv _ _ Pk) as (_ & _ & _ & Nk).
    destruct (tolist_pairs k) as (ik & Ek & Nik & Fk).
    destruct (0 <? Z.of_nat (List.length k)); constructor; [|constructor].
    split; [right; reflexivity|]. exists ik. simpl. rewrite Ek. auto.
Qed.

Lemma csv_arrays_are_lists_of_pairs_witness :
  exists members,
    build [(400, 1.5); (500, 1.6)]%float None = JObject members /\
    Forall (fun member =>
              (fst member = "Eta" \/ fst member = "K") /\
              exists items,
                snd member = texture (JArray items) /\
                items <> [] /\ Forall is_pair items)
           members.
Proof.
  apply (csv_arrays_are_lists_of_pairs negative_k).
  vm_compute. reflexivity.
Defined.

Lemma loadtxt_with_rows text rows :
  Mitsuba2.loadtxt_rows text = Ok rows ->
  (2 <= List.length rows)%nat ->
  Forall (fun row => List.length row = 2%nat) rows ->
  Mitsuba2.loadtxt text = Ok (Mitsuba2.Array2 rows).
Proof.
  intros R L W. unfold Mitsuba2.loadtxt. rewrite R. simpl.
  destruct rows as [|r1 [|r2 rows]]; simpl in L; try lia.
  inversion W as [|? ? W1 W']; subst. inversion W' as [|? ? W2 W'']; subst.
  assert (S : Mitsuba2.same_width (r1 :: r2 :: rows) = true).
  { unfold Mitsuba2.same_width. apply forallb_forall. intros row Hrow.
    rewrite Forall_forall in W'. rewrite (W' row Hrow), W1. reflexivity. }
  rewrite S. unfold Mitsuba2.squeeze.
  assert (N : forallb (fun row => Nat.eqb (List.length row) 1)
                (r1 :: r2 :: rows) = false).
  { simpl. rewrite W1. reflexivity. }
  rewrite N.
  destruct r1 as [|x [|y r1]]; try discriminate; reflexivity.
Qed.

(** X14. When each of the two files of a Mitsuba2 material holds at least
    two rows of two numbers, the object written has both [Eta] and [K],
    and each [Array] lists every row of its file as a pair, in order and
    unchanged: nothing is trimmed to the band and no K table is left out. *)
Theorem spd_files_with_rows_are_emitted_whole eta_text k_text eta_rows k_rows :
  Mitsuba2.loadtxt_rows eta_text = Ok eta_rows ->
  Mitsuba2.loadtxt_rows k_text = Ok k_rows ->
  (2 <= List.length eta_rows)%nat -> (2 <= List.length k_rows)%nat ->
  Forall (fun row => List.length row = 2%nat) eta_rows ->
  Forall (fun row => List.length row = 2%nat) k_rows ->
  Mitsuba2.convert eta_text k_text
  = Ok (JObject [("Eta", texture (JArray (map row_array eta_rows)));
                 ("K", texture (JArray (map row_array k_rows)))]).
Proof.
  intros Re Rk Le Lk We Wk. unfold Mitsuba2.convert.
  rewrite (loadtxt_with_rows _ _ Re Le We), (loadtxt_with_rows _ _ Rk Lk Wk).
  reflexivity.
Qed.

Lemma spd_files_with_rows_are_emitted_whole_witness :
  Mitsuba2.convert (text ["300 1.1"; "900 1.2"]) (text ["300 0"; "900 0"])
  = Ok (JObject
          [("Eta", texture (JArray (map row_array
                                      [[300; 1.1]; [900; 1.2]]%float)));
           ("K", texture (JArray (map row_array
                                    [[300; 0]; [900; 0]]%float)))]).
Proof.
  apply (spd_files_with_rows_are_emitted_whole
           (text ["300 1.1"; "900 1.2"]) (text ["300 0"; "900 0"])).
  - vm_compute. reflexivity.
  - vm_compute. reflexivity.
  - simpl. lia.
  - simpl. lia.
  - repeat constructor.
  - repeat constructor.
Defined.

End Shapes.

(** ** The texts [float] accepts *)

Section FloatTexts.
Import Py Spec Reading.

Ltac each_char c := destruct c as [[] [] [] [] [] [] [] []].

Lemma is_digit_decimal c : is_digit c = true <-> decimal_digit c.
Proof.
  unfold decimal_digit. each_char c; vm_compute; split; intros H;
    try discriminate H; try reflexivity; try tauto;
    repeat (destruct H as [H|H]; [discriminate H|]); destruct H.
Qed.

Lemma is_float_space_blank c : is_float_space c = true <-> float_blank c.
Proof.
  unfold is_float_space, float_blank. cbv zeta. simpl In.
  rewrite !orb_true_iff, andb_true_iff, !Z.leb_le, !Z.eqb_eq. lia.
Qed.

Lemma lower_char_e c :
  Ascii.eqb (lower_char c) "e" = true -> c = "e"%char \/ c = "E"%char.
Proof. each_char c; vm_compute; intros H; try discriminate H; auto. Qed.

Lemma plain_lower c : plain_b (lower_char c) = true -> plain_b c = true.
Proof. each_char c; vm_compute; auto. Qed.

Lemma digit_plain c : is_digit c = true -> plain_b c = true.
Proof. each_char c; vm_compute; auto. Qed.

Lemma digit_not_sign c :
  is_digit c = true -> Ascii.eqb c "-" = false /\ Ascii.eqb c "+" = false.
Proof. each_char c; vm_compute; auto; discriminate. Qed.

Lemma blank_not_comma c : is_float_space c = true -> Ascii.eqb c "," = false.
Proof. each_char c; vm_compute; auto. Qed.

Lemma app_assoc_string a b c : (a ++ b) ++ c = a ++ b ++ c.
Proof. induction a as [|x a IH]; simpl; [reflexivity | f_equal; exact IH]. Qed.

Lemma app_empty_r s : s ++ "" = s.
Proof. induction s as [|x s IH]; simpl; [reflexivity | f_equal; exact IH]. Qed.

Lemma chars_app a b :
  list_ascii_of_string (a ++ b)
  = (list_ascii_of_string a ++ list_ascii_of_string b)%list.
Proof. induction a as [|x a IH]; simpl; [reflexivity | f_equal; exact IH]. Qed.

Lemma digit_text_head t :
  digit_text t -> exists d p, t = String d p /\ decimal_digit d.
Proof. intros H. destruct H; eauto. Qed.

Lemma digit_text_cons d d' p :
  decimal_digit d -> digit_text (String d' p) ->
  digit_text (String d (String d' p)).
Proof. intros Hd H. apply digit_next; assumption. Qed.

Lemma digits_rest_digit c s :
  is_digit c = true ->
  digits_rest true (String c s)
  = let (ds, r) := digits_rest true s in (digit_value c :: ds, r).
Proof. intros H. cbn [digits_rest]. rewrite H. reflexivity. Qed.

Lemma digits_rest_underscore d s :
  is_digit d = true ->
  digits_rest true (String "_" (String d s))
  = let (ds, r) := digits_rest true s in (digit_value d :: ds, r).
Proof.
  intros H. cbn [digits_rest].
  replace (is_digit "_") with false by reflexivity.
  replace (true && Ascii.eqb "_" "_") with true by reflexivity.
  rewrite H. reflexivity.
Qed.

Lemma digits_rest_cases c s :
  (is_digit c = true) \/
  (c = "_"%char /\ exists d s', s = String d s' /\ is_digit d = true) \/
  digits_rest true (String c s) = ([], String c s).
Proof.
  destruct (is_digit c) eqn:Dc; [left; reflexivity | right].
  destruct (Ascii.eqb c "_") eqn:U.
  - apply Ascii.eqb_eq in U. subst c.
    destruct s as [|d s']; [right; reflexivity|].
    destruct (is_digit d) eqn:Dd.
    + left. split; [reflexivity|]. eauto.
    + right. cbn [digits_rest].
      replace (is_digit "_") with false by reflexivity.
      replace (true && Ascii.eqb "_" "_") with true by reflexivity.
      rewrite Dd. reflexivity.
  - right. cbn [digits_rest]. rewrite Dc. simpl andb. rewrite U. reflexivity.
Qed.

(** What [digits_rest] reads continues a [digitpart]. *)
Lemma digits_rest_sound s :
  (forall d ds r,
      decimal_digit d -> digits_rest true s = (ds, r) ->
      exists p, s = p ++ r /\ digit_text (String d p)) /\
  (forall c d ds r,
      decimal_digit d -> digits_rest true (String c s) = (ds, r) ->
      exists p, String c s = p ++ r /\ digit_text (String d p)).
Proof.
  assert (Stop : forall t d ds r,
             decimal_digit d -> digits_rest true t = ([], t) ->
             digits_rest true t = (ds, r) ->
             exists p, t = p ++ r /\ digit_text (String d p)).
  { intros t d ds r Hd E H. rewrite E in H. inversion H; subst.
    exists "". split; [reflexivity | apply digit_last, Hd]. }
  assert (Step : forall c t,
             (forall d ds r,
                 decimal_digit d -> digits_rest true t = (ds, r) ->
                 exists p, t = p ++ r /\ digit_text (String d p)) ->
             (forall d s', t = String d s' -> is_digit d = true ->
                 forall d0 ds r, decimal_digit d0 ->
                   digits_rest true s' = (ds, r) ->
                   exists p, s' = p ++ r /\ digit_text (String d0 p)) ->
             forall d ds r,
               decimal_digit d -> digits_rest true (String c t) = (ds, r) ->
               exists p, String c t = p ++ r /\ digit_text (String d p)).
  { intros c t IHt IHt' d ds r Hd H.
    destruct (digits_rest_cases c t) as [Dc|[(-> & d' & s' & -> & Dd)|E]].
    - rewrite (digits_rest_digit c t Dc) in H.
      destruct (digits_rest true t) as [ds' r'] eqn:E.
      inversion H; subst.
      destruct (IHt c ds' r (proj1 (is_digit_decimal c) Dc) eq_refl)
        as (p & Ep & Hp).
      exists (String c p). split; [simpl; f_equal; exact Ep|].
      apply digit_next; assumption.
    - rewrite (digits_rest_underscore d' s' Dd) in H.
      destruct (digits_rest true s') as [ds' r'] eqn:E.
      inversion H; subst.
      destruct (IHt' d' s' eq_refl Dd d' ds' r
                  (proj1 (is_digit_decimal d') Dd) E)
        as (p & Ep & Hp).
      exists (String "_" (String d' p)).
      split; [simpl; do 2 f_equal; exact Ep|].
      apply digit_underscore; assumption.
    - apply (Stop _ d ds r Hd E H). }
  induction s as [|c' s [IH1 IH2]].
  - split.
    + intros d ds r Hd H. apply (Stop "" d ds r Hd eq_refl H).
    + intros c. apply Step.
      * intros d ds r Hd H. apply (Stop "" d ds r Hd eq_refl H).
      * intros d s' E. discriminate E.
  - split; [exact (IH2 c')|].
    intros c. apply Step; [exact (IH2 c')|].
    intros d s' E Dd. inversion E; subst. exact IH1.
Qed.

(** [digits_rest] reads the whole continuation of a [digitpart] when
    what follows cannot continue it. *)
Lemma digits_rest_complete t :
  digit_text t ->
  forall d p r, t = String d p -> stops r ->
  exists ds, digits_rest true (p ++ r) = (ds, r).
Proof.
  induction 1 as [d0 Hd0 | d0 rest Hd0 Hrest IH | d0 rest Hd0 Hrest IH];
    intros d p r E S; inversion E; subst.
  - exists []. exact S.
  - destruct (digit_text_head _ Hrest) as (d' & p' & -> & Hd').
    destruct (IH d' p' r eq_refl S) as (ds & Eds).
    simpl append.
    rewrite (digits_rest_digit _ _ (proj2 (is_digit_decimal d') Hd')), Eds.
    eauto.
  - destruct (digit_text_head _ Hrest) as (d' & p' & -> & Hd').
    destruct (IH d' p' r eq_refl S) as (ds & Eds).
    simpl append.
    rewrite (digits_rest_underscore _ _ (proj2 (is_digit_decimal d') Hd')),
      Eds.
    eauto.
Qed.

Lemma digitpart_sound s d ds r :
  digitpart true s = (d :: ds, r) ->
  exists p, s = p ++ r /\ digit_text p.
Proof.
  destruct s as [|c s]; cbn [digitpart]; [discriminate|].
  destruct (is_digit c) eqn:Dc; [|discriminate].
  destruct (digits_rest true s) as [ds' r'] eqn:E. intros H.
  inversion H; subst.
  destruct (proj1 (digits_rest_sound s) c ds r
              (proj1 (is_digit_decimal c) Dc) E) as (p & Ep & Hp).
  exists (String c p). split; [simpl; f_equal; exact Ep | exact Hp].
Qed.

Lemma digitpart_none s r : digitpart true s = ([], r) -> r = s.
Proof.
  destruct s as [|c s]; cbn [digitpart]; [congruence|].
  destruct (is_digit c); [|congruence].
  destruct (digits_rest true s). discriminate.
Qed.

Lemma digitpart_complete p r :
  digit_text p -> stops r ->
  exists d ds, digitpart true (p ++ r) = (d :: ds, r).
Proof.
  intros Hp S. destruct (digit_text_head _ Hp) as (d & q & -> & Hd).
  destruct (digits_rest_complete _ Hp d q r eq_refl S) as (ds & E).
  simpl append. cbn [digitpart].
  rewrite (proj2 (is_digit_decimal d) Hd), E. eauto.
Qed.

Lemma stops_empty : stops "".
Proof. reflexivity. Qed.

Lemma stops_dot r : stops (String "." r).
Proof. reflexivity. Qed.

Lemma stops_e c r : Ascii.eqb (lower_char c) "e" = true -> stops (String c r).
Proof.
  intros H. destruct (lower_char_e c H) as [-> | ->]; reflexivity.
Qed.

Lemma sign_of_sound s neg body :
  sign_of s = (neg, body) ->
  exists sign, s = sign ++ body /\ optional_sign sign.
Proof.
  unfold sign_of, optional_sign. destruct s as [|c s].
  - intros H. inversion H; subst. exists "". auto.
  - destruct (Ascii.eqb c "-") eqn:M.
    + apply Ascii.eqb_eq in M. subst. intros H. inversion H; subst.
      exists "-". auto.
    + destruct (Ascii.eqb c "+") eqn:P.
      * apply Ascii.eqb_eq in P. subst. intros H. inversion H; subst.
        exists "+". auto.
      * intros H. inversion H; subst. exists "". auto.
Qed.

Lemma sign_of_signed sign body :
  optional_sign sign -> sign <> "" ->
  exists neg, sign_of (sign ++ body) = (neg, body).
Proof.
  intros [->|[->| ->]] N; [congruence | |]; simpl; eauto.
Qed.

Lemma sign_of_unsigned c s :
  Ascii.eqb c "-" = false -> Ascii.eqb c "+" = false ->
  sign_of (String c s) = (false, String c s).
Proof. intros M P. unfold sign_of. rewrite M, P. reflexivity. Qed.

Lemma exponent_sound s z :
  exponent_of true s = Some z -> s = "" \/ exponent_text s.
Proof.
  destruct s as [|c s]; [auto|]. intros H. right. unfold exponent_of in H.
  destruct (Ascii.eqb (lower_char c) "e") eqn:E; [|discriminate].
  destruct (sign_of s) as [neg r] eqn:S.
  destruct (sign_of_sound _ _ _ S) as (sign & -> & Hs).
  destruct (digitpart true r) as [[|d ds] [|x y]] eqn:D; try discriminate.
  destruct (digitpart_sound _ _ _ _ D) as (p & -> & Hp).
  rewrite app_empty_r. exists (String c ""), sign, p.
  split; [reflexivity|]. split; [|auto].
  destruct (lower_char_e c E) as [-> | ->]; auto.
Qed.

Lemma exponent_complete s :
  s = "" \/ exponent_text s -> exists z, exponent_of true s = Some z.
Proof.
  intros [->|(e & sign & digits & -> & He & Hs & Hd)]; [simpl; eauto|].
  assert (D : exists d ds, digitpart true digits = (d :: ds, "")).
  { destruct (digitpart_complete digits "" Hd stops_empty) as (d & ds & E).
    rewrite app_empty_r in E. eauto. }
  destruct D as (d & ds & D).
  assert (S : exists neg, sign_of (sign ++ digits) = (neg, digits)).
  { destruct (string_dec sign "") as [->|N].
    - destruct (digit_text_head _ Hd) as (c & q & -> & Hc).
      apply is_digit_decimal in Hc. destruct (digit_not_sign c Hc) as [M P].
      exists false. apply sign_of_unsigned; assumption.
    - apply sign_of_signed; assumption. }
  destruct S as (neg & S).
  destruct He as [-> | ->]; simpl append; unfold exponent_of;
    (replace (Ascii.eqb (lower_char _) "e") with true by reflexivity);
    rewrite S, D; eauto.
Qed.

Lemma exponent_stops e : e = "" \/ exponent_text e -> stops e.
Proof.
  intros [->|(c & sign & digits & -> & [-> | ->] & _)];
    [apply stops_empty | reflexivity | reflexivity].
Qed.

Lemma floatnumber_sound neg s x :
  floatnumber true neg s = Some x -> floatnumber_text s.
Proof.
  unfold floatnumber. destruct (digitpart true s) as [ip r1] eqn:D1.
  assert (I : exists p, s = p ++ r1 /\
                        ((ip = [] /\ p = "") \/ (ip <> [] /\ digit_text p))).
  { destruct ip as [|d ds].
    - apply digitpart_none in D1. subst. exists "". auto.
    - destruct (digitpart_sound _ _ _ _ D1) as (p & -> & Hp).
      exists p. split; [reflexivity|]. right. split; [discriminate | exact Hp]. }
  destruct I as (p & -> & Hip).
  assert (NoDot : forall r2, ip <> [] ->
            match exponent_of true r2 with
            | Some e =>
                Some (float_of_decimal neg (decimal_value (ip ++ [])%list)
                        (e - Z.of_nat (@List.length Z [])))
            | None => None
            end = Some x ->
            floatnumber_text (p ++ r2)).
  { intros r2 N H. destruct (exponent_of true r2) as [e|] eqn:Ex;
      [|discriminate].
    destruct Hip as [[? _]|[_ Hp]]; [congruence|].
    exists p, r2. split; [reflexivity|]. split.
    - right. exists p. auto.
    - apply (exponent_sound _ _ Ex). }
  destruct r1 as [|c r].
  - destruct ip as [|d ds]; [discriminate|]. apply NoDot. discriminate.
  - destruct (Ascii.eqb c ".") eqn:Dot.
    + apply Ascii.eqb_eq in Dot. subst c.
      destruct (digitpart true r) as [fp r2] eqn:D2.
      destruct fp as [|f fs].
      * apply digitpart_none in D2. subst r2.
        destruct ip as [|d ds]; [discriminate|].
        destruct (exponent_of true r) as [e|] eqn:Ex; [|discriminate].
        intros _. destruct Hip as [[? _]|[_ Hp]]; [congruence|].
        exists (p ++ "."), r. split; [symmetry; apply app_assoc_string|].
        split; [right; exists p; auto | apply (exponent_sound _ _ Ex)].
      * destruct (digitpart_sound _ _ _ _ D2) as (q & -> & Hq).
        intros H.
        assert (Ex : exists e, exponent_of true r2 = Some e).
        { destruct ip; destruct (exponent_of true r2); eauto; discriminate. }
        destruct Ex as (e & Ex).
        exists (p ++ "." ++ q), r2. split.
        { rewrite !app_assoc_string. reflexivity. }
        split; [|apply (exponent_sound _ _ Ex)].
        left. exists p, q. split; [reflexivity|]. split; [|exact Hq].
        destruct Hip as [[_ ->]|[_ Hp]]; auto.
    + destruct ip as [|d ds]; [discriminate|]. apply NoDot. discriminate.
Qed.

Lemma floatnumber_complete neg s :
  floatnumber_text s -> exists x, floatnumber true neg s = Some x.
Proof.
  intros (n & e & -> & Hn & He).
  destruct (exponent_complete e He) as (z & Ez).
  pose proof (exponent_stops e He) as Se.
  unfold floatnumber.
  destruct Hn as [(ip & fp & -> & Hip & Hfp)|(ip & Hip & [->| ->])].
  - rewrite !app_assoc_string.
    destruct (digitpart_complete fp e Hfp Se) as (f & fs & Df).
    destruct Hip as [->|Hip].
    + simpl append. cbn [digitpart].
      replace (is_digit ".") with false by reflexivity.
      replace (Ascii.eqb "." ".") with true by reflexivity.
      rewrite Df, Ez. eauto.
    + destruct (digitpart_complete ip (String "." (fp ++ e)) Hip
                  (stops_dot _)) as (d & ds & Di).
      simpl append in *. rewrite Di.
      replace (Ascii.eqb "." ".") with true by reflexivity.
      rewrite Df, Ez. eauto.
  - destruct (digitpart_complete ip e Hip Se) as (d & ds & Di). rewrite Di.
    destruct e as [|c e'].
    + rewrite Ez. eauto.
    + assert (Dot : Ascii.eqb c "." = false).
      { destruct He as [He|(x & sign & digits & E & [-> | ->] & _)];
          [discriminate| |]; simpl in E; inversion E; reflexivity. }
      rewrite Dot, Ez. eauto.
  - rewrite app_assoc_string.
    destruct (digitpart_complete ip (String "." e) Hip (stops_dot _))
      as (d & ds & Di).
    simpl append. rewrite Di.
    replace (Ascii.eqb "." ".") with true by reflexivity.
    assert (Df : digitpart true e = ([], e)).
    { destruct e as [|c e']; [reflexivity|].
      destruct He as [He|(x & sign & digits & E & [-> | ->] & _)];
        [discriminate| |]; simpl in E; inversion E; reflexivity. }
    rewrite Df, Ez. eauto.
Qed.

Lemma number_head n :
  number_text n ->
  exists c r, n = String c r /\ (is_digit c = true \/ c = "."%char).
Proof.
  intros [(ip & fp & -> & [->|Hip] & _)|(ip & Hip & [->| ->])].
  - simpl. eauto.
  - destruct (digit_text_head _ Hip) as (c & q & -> & Hc).
    exists c; eexists. split; [reflexivity|]. left. apply is_digit_decimal, Hc.
  - destruct (digit_text_head _ Hip) as (c & q & -> & Hc).
    exists c; eexists. split; [reflexivity|]. left. apply is_digit_decimal, Hc.
  - destruct (digit_text_head _ Hip) as (c & q & -> & Hc).
    exists c; eexists. split; [reflexivity|]. left. apply is_digit_decimal, Hc.
Qed.

Lemma special_word body :
  (String.eqb (lower body) "inf" || String.eqb (lower body) "infinity"
   || String.eqb (lower body) "nan") = true <-> infinity_or_nan body.
Proof.
  unfold infinity_or_nan. simpl In.
  rewrite !orb_true_iff, !String.eqb_eq. intuition congruence.
Qed.

Lemma special_head body :
  infinity_or_nan body ->
  exists c r, body = String c r /\
              Ascii.eqb c "-" = false /\ Ascii.eqb c "+" = false.
Proof.
  intros H. destruct body as [|c r].
  - destruct H as [H|[H|[H|[]]]]; discriminate.
  - exists c, r. split; [reflexivity|].
    assert (L : lower_char c = "i"%char \/ lower_char c = "n"%char).
    { destruct H as [H|[H|[H|[]]]]; simpl in H; inversion H; auto. }
    clear H. each_char c; vm_compute in L; vm_compute; auto;
      destruct L; discriminate.
Qed.

Lemma float_of_ascii_sound s x :
  float_of_ascii true s = Ok x -> floatvalue_text s.
Proof.
  unfold float_of_ascii. destruct (sign_of s) as [neg body] eqn:S.
  destruct (sign_of_sound _ _ _ S) as (sign & -> & Hs).
  intros H. exists sign, body. split; [reflexivity|]. split; [exact Hs|].
  destruct (String.eqb (lower body) "inf" || String.eqb (lower body) "infinity")
    eqn:I.
  - right. apply special_word. rewrite I. reflexivity.
  - destruct (String.eqb (lower body) "nan") eqn:N.
    + right. apply special_word. rewrite I, N. reflexivity.
    + destruct (floatnumber true neg body) as [y|] eqn:F; [|discriminate].
      left. apply (floatnumber_sound _ _ _ F).
Qed.

Lemma float_of_ascii_complete s :
  floatvalue_text s -> exists x, float_of_ascii true s = Ok x.
Proof.
  intros (sign & body & -> & Hs & Hb).
  assert (S : exists neg, sign_of (sign ++ body) = (neg, body)).
  { destruct (string_dec sign "") as [->|N]; [|apply sign_of_signed; auto].
    exists false. simpl append. destruct Hb as [(n & e & -> & Hn & _)|Hb].
    - destruct (number_head n Hn) as (c & r & -> & Hc). simpl append.
      apply sign_of_unsigned; destruct Hc as [Hc| ->];
        try reflexivity; apply (digit_not_sign c Hc).
    - destruct (special_head body Hb) as (c & r & -> & M & P).
      apply sign_of_unsigned; assumption. }
  destruct S as (neg & S). unfold float_of_ascii. rewrite S.
  destruct (String.eqb (lower body) "inf" || String.eqb (lower body) "infinity")
    eqn:I; [eauto|].
  destruct (String.eqb (lower body) "nan") eqn:N; [eauto|].
  destruct Hb as [Hb|Hb].
  - destruct (floatnumber_complete neg body Hb) as (x & ->). eauto.
  - apply special_word in Hb. rewrite I, N in Hb. discriminate.
Qed.

(** *** Surrounding whitespace *)

Lemma blanks_cons c s :
  blanks (String c s) <-> is_float_space c = true /\ blanks s.
Proof.
  unfold blanks. simpl. rewrite is_float_space_blank. split.
  - intros H. inversion H; auto.
  - intros [H1 H2]. constructor; assumption.
Qed.

Lemma float_lstrip_sound s :
  exists before, s = before ++ float_lstrip s /\ blanks before.
Proof.
  induction s as [|c s (before & E & B)]; simpl.
  - exists "". split; [reflexivity | constructor].
  - destruct (is_float_space c) eqn:W.
    + exists (String c before). split; [simpl; f_equal; exact E|].
      apply blanks_cons. auto.
    + exists "". split; [reflexivity | constructor].
Qed.

Lemma float_rstrip_sound s :
  exists after, s = float_rstrip s ++ after /\ blanks after.
Proof.
  induction s as [|c s (after & E & B)]; simpl.
  - exists "". split; [reflexivity | constructor].
  - destruct (float_rstrip s) as [|k kept] eqn:R.
    + simpl in E. subst after.
      destruct (is_float_space c) eqn:W.
      * exists (String c s). split; [reflexivity|]. apply blanks_cons. auto.
      * exists s. split; [reflexivity | exact B].
    + exists after. split; [simpl; f_equal; exact E | exact B].
Qed.

Lemma plain_app a b : plain a -> plain b -> plain (a ++ b).
Proof.
  unfold plain. rewrite chars_app. intros A B. apply Forall_app. auto.
Qed.

Lemma plain_blank c : plain_b c = true -> is_float_space c = false.
Proof.
  unfold plain_b. intros H. apply andb_prop in H as [H _].
  apply negb_true_iff in H. exact H.
Qed.

Lemma float_lstrip_plain before c s :
  blanks before -> plain_b c = true ->
  float_lstrip (before ++ String c s) = String c s.
Proof.
  intros B P. induction before as [|b before IH]; simpl.
  - rewrite (plain_blank c P). reflexivity.
  - apply blanks_cons in B as [W B]. rewrite W. apply IH, B.
Qed.

Lemma float_rstrip_blanks after : blanks after -> float_rstrip after = "".
Proof.
  induction after as [|c after IH]; intros B; [reflexivity|].
  apply blanks_cons in B as [W B]. simpl. rewrite (IH B), W. reflexivity.
Qed.

Lemma float_rstrip_plain body after :
  plain body -> blanks after -> float_rstrip (body ++ after) = body.
Proof.
  intros P B. induction body as [|c body IH]; simpl.
  - apply float_rstrip_blanks, B.
  - inversion P as [|? ? Pc Pb]; subst. rewrite (IH Pb).
    destruct body; [|reflexivity].
    rewrite (plain_blank c Pc). reflexivity.
Qed.

Lemma digit_text_plain p : digit_text p -> plain p.
Proof.
  unfold plain. induction 1 as [d Hd | d rest Hd _ IH | d rest Hd _ IH];
    simpl; repeat constructor; auto;
    apply digit_plain, is_digit_decimal, Hd.
Qed.

Lemma sign_plain sign : optional_sign sign -> plain sign.
Proof. intros [->|[->| ->]]; repeat constructor. Qed.

Lemma lower_plain s : plain (lower s) -> plain s.
Proof.
  unfold plain. induction s as [|c s IH]; simpl; intros H; [constructor|].
  inversion H; subst. constructor; [apply plain_lower; assumption | auto].
Qed.

Lemma floatvalue_plain s : floatvalue_text s -> plain s.
Proof.
  intros (sign & body & -> & Hs & Hb).
  apply plain_app; [apply sign_plain, Hs|].
  destruct Hb as [(n & e & -> & Hn & He)|Hb].
  - apply plain_app.
    + destruct Hn as [(ip & fp & -> & Hip & Hfp)|(ip & Hip & [->| ->])].
      * apply plain_app; [destruct Hip as [->|Hip];
                          [constructor | apply digit_text_plain, Hip]|].
        apply (plain_app "."); [repeat constructor | apply digit_text_plain, Hfp].
      * apply digit_text_plain, Hip.
      * apply plain_app; [apply digit_text_plain, Hip | repeat constructor].
    + destruct He as [->|(x & sign' & digits & -> & Hx & Hs' & Hd)];
        [constructor|].
      apply plain_app; [destruct Hx as [->| ->]; repeat constructor|].
      apply plain_app; [apply sign_plain, Hs' | apply digit_text_plain, Hd].
  - apply lower_plain.
    destruct Hb as [<-|[<-|[<-|[]]]]; repeat constructor.
Qed.

Lemma floatvalue_head s :
  floatvalue_text s -> exists c r, s = String c r.
Proof.
  intros (sign & body & -> & Hs & Hb).
  assert (B : exists c r, body = String c r).
  { destruct Hb as [(n & e & -> & Hn & _)|Hb].
    - destruct (number_head n Hn) as (c & r & -> & _). simpl. eauto.
    - destruct (special_head body Hb) as (c & r & -> & _). eauto. }
  destruct B as (c & r & ->).
  destruct Hs as [->|[->| ->]]; simpl; eauto.
Qed.

(** [float] accepts exactly the texts of the grammar. *)
Lemma float_of_str_text s :
  (exists x, float_of_str s = Ok x) <-> float_text s.
Proof.
  unfold float_of_str, float_strip. split.
  - intros (x & H). apply float_of_ascii_sound in H.
    destruct (float_lstrip_sound s) as (before & E1 & B1).
    destruct (float_rstrip_sound (float_lstrip s)) as (after & E2 & B2).
    exists before, (float_rstrip (float_lstrip s)), after.
    split; [|auto]. rewrite <- E2. exact E1.
  - intros (before & body & after & -> & B1 & B2 & Hb).
    pose proof (floatvalue_plain body Hb) as P.
    destruct (floatvalue_head body Hb) as (c & r & ->).
    simpl append.
    rewrite float_lstrip_plain;
      [|exact B1 | inversion P; assumption].
    change (String c (r ++ after)) with (String c r ++ after).
    rewrite (float_rstrip_plain _ _ P B2).
    apply float_of_ascii_complete, Hb.
Qed.

(** *** Fields *)

Lemma string_of_snoc l c s :
  string_of_list_ascii (l ++ [c]) ++ s
  = string_of_list_ascii l ++ String c s.
Proof. induction l as [|x l IH]; simpl; [reflexivity | f_equal; exact IH]. Qed.

Lemma string_of_chars l s :
  string_of_list_ascii (l ++ list_ascii_of_string s)
  = string_of_list_ascii l ++ s.
Proof.
  induction l as [|x l IH]; simpl;
    [apply string_of_list_ascii_of_string | f_equal; exact IH].
Qed.

Lemma split_from_free cur a :
  comma_free a ->
  split_from cur "," a = [string_of_list_ascii (rev cur) ++ a].
Proof.
  revert cur. induction a as [|c a IH]; intros cur F; simpl.
  - rewrite app_empty_r. reflexivity.
  - inversion F as [|? ? Fc Fa]; subst. rewrite Fc, (IH _ Fa). simpl.
    rewrite string_of_snoc. reflexivity.
Qed.

Lemma split_from_comma cur a rest :
  comma_free a ->
  split_from cur "," (a ++ "," ++ rest)
  = (string_of_list_ascii (rev cur) ++ a) :: split_from [] "," rest.
Proof.
  revert cur. induction a as [|c a IH]; intros cur F; simpl.
  - rewrite app_empty_r. reflexivity.
  - inversion F as [|? ? Fc Fa]; subst. rewrite Fc, (IH _ Fa). simpl.
    rewrite string_of_snoc. reflexivity.
Qed.

Lemma split_from_nonempty cur s : split_from cur "," s <> [].
Proof.
  revert cur. induction s as [|c s IH]; intros cur; simpl; [discriminate|].
  destruct (Ascii.eqb c ","); [discriminate | apply IH].
Qed.

Lemma split_from_one cur s b :
  split_from cur "," s = [b] -> b = string_of_list_ascii (rev cur) ++ s.
Proof.
  revert cur. induction s as [|c s IH]; intros cur; simpl.
  - intros H. inversion H. rewrite app_empty_r. reflexivity.
  - destruct (Ascii.eqb c ","); intros H.
    + inversion H as [[E1 E2]]. destruct (split_from_nonempty _ _ E2).
    + apply IH in H. simpl in H. rewrite string_of_snoc in H. exact H.
Qed.

Lemma split_from_two cur s a b :
  split_from cur "," s = [a; b] ->
  string_of_list_ascii (rev cur) ++ s = a ++ "," ++ b.
Proof.
  revert cur. induction s as [|c s IH]; intros cur; simpl.
  - discriminate.
  - destruct (Ascii.eqb c ",") eqn:E; intros H.
    + apply Ascii.eqb_eq in E. subst c. inversion H as [[E1 E2]].
      apply split_from_one in E2. simpl in E2. subst b. reflexivity.
    + apply IH in H. simpl in H. rewrite string_of_snoc in H. exact H.
Qed.

Lemma float_text_comma_free s : float_text s -> comma_free s.
Proof.
  intros (before & body & after & -> & B1 & B2 & Hb).
  assert (B : forall t, blanks t -> comma_free t).
  { intros t Bt. unfold blanks in Bt. unfold comma_free.
    eapply Forall_impl; [|exact Bt]. intros c Hc.
    apply blank_not_comma, is_float_space_blank, Hc. }
  assert (P : comma_free body).
  { pose proof (floatvalue_plain body Hb) as P. unfold plain in P.
    unfold comma_free. eapply Forall_impl; [|exact P]. intros c Hc.
    unfold plain_b in Hc. apply andb_prop in Hc as [_ Hc].
    apply negb_true_iff in Hc. exact Hc. }
  unfold comma_free. rewrite !chars_app. apply Forall_app.
  split; [apply B, B1|]. apply Forall_app. split; [exact P | apply B, B2].
Qed.

(** The loop body accepts exactly the lines made of two numbers with one
    comma between them. *)
Lemma parse_line_two_floats line :
  (exists r, RefractiveIndex.parse_line line = Ok r) <-> two_floats line.
Proof.
  unfold RefractiveIndex.parse_line, split. split.
  - intros (r & H).
    destruct (split_from [] "," line) as [|a [|b [|c fields]]] eqn:S;
      cbn [map_result bind] in H.
    + discriminate.
    + destruct (float_of_str a); discriminate.
    + destruct (float_of_str a) as [x|] eqn:Fa; cbn [bind] in H;
        [|discriminate].
      destruct (float_of_str b) as [y|] eqn:Fb; cbn [bind] in H;
        [|discriminate].
      apply split_from_two in S. cbn [rev string_of_list_ascii append] in S.
      exists a, b.
      split; [exact S|]. split; apply float_of_str_text; eauto.
    + destruct (float_of_str a); cbn [bind] in H; [|discriminate].
      destruct (float_of_str b); cbn [bind] in H; [|discriminate].
      destruct (float_of_str c); cbn [bind] in H; [|discriminate].
      destruct (map_result float_of_str fields); discriminate.
  - intros (k & v & -> & Hk & Hv).
    rewrite (split_from_comma [] k v (float_text_comma_free k Hk)).
    rewrite (split_from_free [] v (float_text_comma_free v Hv)).
    cbn [rev string_of_list_ascii append map_result].
    apply float_of_str_text in Hk as (x & ->).
    apply float_of_str_text in Hv as (y & ->). cbn [bind]. eauto.
Qed.

Lemma parse_line_malformed line :
  (line <> "" /\ RefractiveIndex.parse_line line = Raise ValueError)
  <-> malformed line.
Proof.
  unfold malformed. split; intros [N H]; (split; [exact N|]).
  - intros T. apply parse_line_two_floats in T as (r & T). congruence.
  - destruct (RefractiveIndex.parse_line line) as [r|e] eqn:P.
    + destruct H. apply parse_line_two_floats. eauto.
    + rewrite (parse_line_raises _ _ P). reflexivity.
Qed.

End FloatTexts.

(** ** The corrected claims *)

Section Corrected.
Import Py Json Sys RefractiveIndex Spec Examples.

Lemma forallb_false {A} (f : A -> bool) l :
  forallb f l = false <-> exists x, In x l /\ f x = false.
Proof.
  induction l as [|a l IH]; simpl.
  - split; [discriminate | intros (x & [] & _)].
  - rewrite andb_false_iff, IH. split.
    + intros [H|(x & Hx & H)]; eauto.
    + intros (x & [->|Hx] & H); eauto.
Qed.

(** C4, as the code has it.  Let [wl,k] first occur at offset [j], the
    imaginary-index table being what [parse] returns for the text after
    it.  An emitted object lacks the key [K] exactly when every value of
    that table is below 1e-3, the values being compared as signed numbers,
    and has the key [K] exactly when some value is not below 1e-3; it
    lacks [K] in particular when all values are below 1e-3 in magnitude;
    and when the section has no parsed row, [parse] raises and no object
    is emitted. *)
Theorem C4_k_key data j :
  first_at data "wl,k" j ->
  (forall obj,
      convert data = Ok obj ->
      exists k,
        parse (drop (j + 4) data) = Ok k /\ k <> [] /\
        (has_key "K" obj = false <->
         forall r, In r k -> (value r <? 1e-3)%float = true) /\
        (has_key "K" obj = true <->
         exists r, In r k /\ (value r <? 1e-3)%float = false)) /\
  (forall obj k,
      convert data = Ok obj ->
      parse (drop (j + 4) data) = Ok k ->
      (forall r, In r k -> (abs (value r) <? 1e-3)%float = true) ->
      has_key "K" obj = false) /\
  (parse_rows (drop (j + 4) data) = Ok [] ->
   exists e, convert data = Raise e).
Proof.
  intros F.
  assert (P : ~ absent data "wl,k").
  { intros A. destruct F as [O _]. apply (A j O). }
  destruct (load_with_marker data P) as [L _].
  rewrite (find_first _ _ _ F) in L.
  replace (Z.of_nat j + 4)%Z with (Z.of_nat (j + 4)) in L by lia.
  rewrite slice_from_drop in L.
  assert (K : forall obj,
             convert data = Ok obj ->
             exists k, parse (drop (j + 4) data) = Ok k /\ k <> [] /\
                       has_key "K" obj = negb (negligible k)).
  { intros obj C. destruct (convert_load _ _ C) as (eta & k & Lk & ->).
    rewrite L in Lk.
    destruct (parse (eta_section data)) as [eta'|]; simpl in Lk;
      [|discriminate].
    destruct (parse (drop (j + 4) data)) as [k'|] eqn:Pk; simpl in Lk;
      [|discriminate].
    inversion Lk; subst. exists k'.
    destruct (parse_inv _ _ Pk) as (_ & _ & _ & N).
    split; [reflexivity|]. split; [exact N | apply has_key_k, N]. }
  split; [|split].
  - intros obj C. destruct (K obj C) as (k & Pk & N & H).
    exists k. split; [exact Pk|]. split; [exact N|]. rewrite H.
    unfold negligible. split.
    + rewrite negb_false_iff, forallb_forall. tauto.
    + rewrite negb_true_iff, forallb_false. tauto.
  - intros obj k C Pk M. destruct (K obj C) as (k' & Pk' & _ & H).
    rewrite Pk in Pk'. inversion Pk'; subst k'. rewrite H.
    apply negb_false_iff, forallb_forall. intros r Hr.
    apply abs_ltb, M, Hr.
  - intros R.
    assert (E : parse (drop (j + 4) data) = Raise TypeError).
    { unfold parse. rewrite R. reflexivity. }
    unfold convert. rewrite L, E.
    destruct (parse (eta_section data)) as [eta|e]; simpl; eauto.
Qed.

Lemma C4_witness :
  (forall obj,
      convert tiny_k = Ok obj ->
      exists k,
        parse (drop (21 + 4) tiny_k) = Ok k /\ k <> [] /\
        (has_key "K" obj = false <->
         forall r, In r k -> (value r <? 1e-3)%float = true) /\
        (has_key "K" obj = true <->
         exists r, In r k /\ (value r <? 1e-3)%float = false)) /\
  (forall obj k,
      convert tiny_k = Ok obj ->
      parse (drop (21 + 4) tiny_k) = Ok k ->
      (forall r, In r k -> (abs (value r) <? 1e-3)%float = true) ->
      has_key "K" obj = false) /\
  (parse_rows (drop (21 + 4) tiny_k) = Ok [] ->
   exists e, convert tiny_k = Raise e).
Proof.
  apply (C4_k_key tiny_k 21). split.
  - split; [vm_compute; lia | reflexivity].
  - intros i Hi [_ H].
    do 21 (destruct i as [|i]; [vm_compute in H; discriminate|]). lia.
Defined.

(** C5, as the code has it.  [parse] raises at its own [raise] statement
    exactly when the section has no non-empty line; it raises a
    [ValueError] exactly when some non-empty line is not two numbers, as
    the grammar of [float] has them, with one comma between them; it
    raises nothing else; and it returns a table exactly when the section
    has a non-empty line and every non-empty line is two such numbers. *)
Theorem C5_parse_errors lines :
  (parse lines = Raise TypeError <-> blank lines) /\
  (parse lines = Raise ValueError <-> Exists malformed (splitlines lines)) /\
  (forall e, parse lines = Raise e -> e = TypeError \/ e = ValueError) /\
  ((exists table, parse lines = Ok table) <->
   ~ blank lines /\
   Forall (fun line => line = EmptyString \/ two_floats line)
     (splitlines lines)).
Proof.
  destruct (parse_raises lines) as (T & V & O & _).
  assert (V' : parse lines = Raise ValueError <->
               Exists malformed (splitlines lines)).
  { rewrite V. split; intros H; (eapply Exists_impl; [|exact H]);
      intros line; apply parse_line_malformed. }
  split; [exact T|]. split; [exact V'|]. split; [exact O|]. split.
  - intros (table & H). split.
    + intros B. apply T in B. congruence.
    + apply Forall_forall. intros line Hin.
      destruct (string_dec line EmptyString) as [E|N]; [left; exact E|].
      right. destruct (parse_line line) as [r|e] eqn:P.
      * apply parse_line_two_floats. eauto.
      * exfalso. rewrite (parse_line_raises _ _ P) in P.
        assert (X : parse lines = Raise ValueError).
        { apply V. apply Exists_exists. exists line. auto. }
        congruence.
  - intros [NB F].
    assert (D : (exists table, parse lines = Ok table) \/
                (exists e, parse lines = Raise e))
      by (destruct (parse lines); eauto).
    destruct D as [D|(e & P)]; [exact D|].
    exfalso. destruct (O e P) as [->| ->].
    + apply NB, T, P.
    + apply V' in P. apply Exists_exists in P as (line & Hin & N & M).
      rewrite Forall_forall in F. destruct (F line Hin); auto.
Qed.

End Corrected.
